(** * Portfolio analytics of [app.py]: a shallow embedding and its properties

    The analytics functions of [app.py] are translated one by one.  Python
    floats are embedded as exact real numbers extended with the three special
    values a float computation of the program can produce ([inf], [-inf],
    [nan]); rounding is not modelled, and a zero is always the positive zero.
    Statements over this embedding give a result as the formula the program
    evaluates; where the rounding of binary64 decides an outcome, the
    functions concerned are embedded a second time over the machine floats
    (module [Binary64]) and run on the input in question.
    Library calls ([pandas], [numpy]) are embedded by the operation they
    perform on the data; [scipy.optimize.minimize] is kept abstract. *)

From Stdlib Require Import Reals Lra Lia List ZArith Bool Permutation Sorted.
From Stdlib Require Floats.
Import ListNotations.
Open Scope R_scope.

(** ** Floats: reals with the special values *)

Module Float.

Inductive fl : Type :=
| Fin (x : R)
| PInf
| NInf
| NaN.

Definition signo (x : R) : comparison :=
  if Rlt_dec 0 x then Gt else if Rlt_dec x 0 then Lt else Eq.

Definition inf_con_signo (c : comparison) : fl :=
  match c with Gt => PInf | Lt => NInf | Eq => NaN end.

Definition fneg (a : fl) : fl :=
  match a with
  | Fin x => Fin (- x)
  | PInf => NInf
  | NInf => PInf
  | NaN => NaN
  end.

Definition fadd (a b : fl) : fl :=
  match a, b with
  | NaN, _ | _, NaN => NaN
  | Fin x, Fin y => Fin (x + y)
  | PInf, NInf | NInf, PInf => NaN
  | PInf, _ | _, PInf => PInf
  | NInf, _ | _, NInf => NInf
  end.

Definition fsub (a b : fl) : fl := fadd a (fneg b).

Definition fmul (a b : fl) : fl :=
  match a, b with
  | NaN, _ | _, NaN => NaN
  | Fin x, Fin y => Fin (x * y)
  | Fin x, PInf | PInf, Fin x => inf_con_signo (signo x)
  | Fin x, NInf | NInf, Fin x => inf_con_signo (CompOpp (signo x))
  | PInf, PInf | NInf, NInf => PInf
  | PInf, NInf | NInf, PInf => NInf
  end.

(** Division never raises on floats: a zero divisor gives an infinity of the
    sign of the dividend, and [0/0] gives [nan]. *)
Definition fdiv (a b : fl) : fl :=
  match a, b with
  | NaN, _ | _, NaN => NaN
  | Fin x, Fin y =>
      if Req_dec_T y 0 then inf_con_signo (signo x) else Fin (x / y)
  | Fin _, PInf | Fin _, NInf => Fin 0
  | PInf, Fin y => if Rlt_dec y 0 then NInf else PInf
  | NInf, Fin y => if Rlt_dec y 0 then PInf else NInf
  | _, _ => NaN
  end.

Definition fpow (a : fl) (n : nat) : fl :=
  match n with
  | O => Fin 1
  | S _ =>
      match a with
      | Fin x => Fin (x ^ n)
      | PInf => PInf
      | NInf => if Nat.even n then PInf else NInf
      | NaN => NaN
      end
  end.

Definition fsqrt (a : fl) : fl :=
  match a with
  | Fin x => if Rlt_dec x 0 then NaN else Fin (sqrt x)
  | PInf => PInf
  | NInf | NaN => NaN
  end.

(** [a >= b]; every comparison with [nan] is false. *)
Definition fge (a b : fl) : bool :=
  match a, b with
  | NaN, _ | _, NaN => false
  | Fin x, Fin y => if Rle_dec y x then true else false
  | PInf, _ | _, NInf => true
  | _, _ => false
  end.

Definition fle (a b : fl) : bool := fge b a.

Definition flt (a b : fl) : bool :=
  match a, b with
  | NaN, _ | _, NaN => false
  | Fin x, Fin y => if Rlt_dec x y then true else false
  | PInf, _ | _, NInf => false
  | _, _ => true
  end.

(** [a != 0]; true on [nan] and on the infinities. *)
Definition fne0 (a : fl) : bool :=
  match a with
  | Fin x => if Req_dec_T x 0 then false else true
  | _ => true
  end.

Definition isnan (a : fl) : bool :=
  match a with NaN => true | _ => false end.

Definition finito (a : fl) : Prop :=
  match a with Fin _ => True | _ => False end.

End Float.
Export Float.

(** ** Exceptions *)

Inductive excepcion : Type :=
| ValueError
| IndexError.

Inductive res (A : Type) : Type :=
| Ok (a : A)
| Raise (e : excepcion).
Arguments Ok {A} a.
Arguments Raise {A} e.

Definition bind {A B : Type} (m : res A) (k : A -> res B) : res B :=
  match m with
  | Ok a => k a
  | Raise e => Raise e
  end.

Notation "x <- m ;; k" := (bind m (fun x => k))
  (at level 61, m at next level, right associativity).

(** ** Series and frames *)

(** A series of finite observations, oldest first. *)
Definition Series := list R.

(** A frame is stored by columns; the index has [index_len] dates. *)
Record DataFrame : Type := mkDataFrame {
  index_len : nat;
  columns : list Series
}.

Definition bien_formado (df : DataFrame) : Prop :=
  Forall (fun c => length c = index_len df) (columns df).

Definition suma (l : list R) : R := fold_right Rplus 0 l.

Definition producto (l : list R) : R := fold_right Rmult 1 l.

Definition media_R (l : list R) : R := suma l / INR (length l).

(** Sum of squared deviations from the mean. *)
Definition suma_cuadrados (l : list R) : R :=
  suma (map (fun x => (x - media_R l) ^ 2) l).

(** Sum of products of the deviations of two series, paired by position. *)
Definition suma_productos (a m : list R) : R :=
  suma (map (fun p => (fst p - media_R a) * (snd p - media_R m)) (combine a m)).

Module Pandas.

(** [Series.mean()]. *)
Definition mean (s : Series) : fl :=
  match s with
  | [] => NaN
  | _ => Fin (media_R s)
  end.

(** [Series.var(ddof)]: [nan] when there are no degrees of freedom left. *)
Definition var (ddof : nat) (s : Series) : fl :=
  if (length s <=? ddof)%nat then NaN
  else Fin (suma_cuadrados s / INR (length s - ddof)).

(** [Series.std()], with the default [ddof = 1]. *)
Definition std (s : Series) : fl := fsqrt (var 1 s).

Fixpoint insertar (x : R) (l : list R) : list R :=
  match l with
  | [] => [x]
  | y :: t => if Rle_dec x y then x :: l else y :: insertar x t
  end.

Definition ordenar (l : list R) : list R := fold_right insertar [] l.

(** [Series.quantile(q)] with the default linear interpolation: the value at
    the virtual index [(n-1)*q] of the sorted data. *)
Definition quantile (s : Series) (q : R) : res fl :=
  if Rle_dec 0 q then
    if Rle_dec q 1 then
      match s with
      | [] => Ok NaN
      | _ =>
          let ord := ordenar s in
          let n := length s in
          let h := INR (n - 1) * q in
          let lo := Z.to_nat (Int_part h) in
          let hi := Nat.min (S lo) (n - 1) in
          let g := h - IZR (Int_part h) in
          Ok (Fin (nth lo ord 0 + g * (nth hi ord 0 - nth lo ord 0)))
      end
    else Raise ValueError
  else Raise ValueError.

(** [s.iloc[-window:]], with Python's slice rules: a negative start counts
    from the end and is clamped at the beginning; [-0] is [0]. *)
Definition iloc_ultimos {A : Type} (window : Z) (s : list A) : list A :=
  let start := (- window)%Z in
  if (start <? 0)%Z
  then skipn (Z.to_nat (Z.max 0 (Z.of_nat (length s) + start))) s
  else skipn (Z.to_nat start) s.

(** [s.iloc[0]]. *)
Definition iloc0 {A : Type} (s : list A) : res A :=
  match s with
  | [] => Raise IndexError
  | x :: _ => Ok x
  end.

Fixpoint pct_desde (prev : R) (s : list R) : list fl :=
  match s with
  | [] => []
  | p :: t => fsub (fdiv (Fin p) (Fin prev)) (Fin 1) :: pct_desde p t
  end.

(** [s.pct_change()]: [s / s.shift(1) - 1]; the first row has no
    predecessor. *)
Definition pct_change (s : list R) : list fl :=
  match s with
  | [] => []
  | p :: t => NaN :: pct_desde p t
  end.

(** [s.dropna()]. *)
Definition dropna (s : list fl) : list fl :=
  filter (fun v => negb (isnan v)) s.

Fixpoint cumprod_desde (acc : fl) (s : list fl) : list fl :=
  match s with
  | [] => []
  | NaN :: t => NaN :: cumprod_desde acc t
  | v :: t => let a := fmul acc v in a :: cumprod_desde a t
  end.

(** [s.cumprod()]; missing entries are skipped. *)
Definition cumprod (s : list fl) : list fl := cumprod_desde (Fin 1) s.

(** [(frame * pesos)]: column [j] is scaled by [pesos[j]]; the list must
    have one entry per column. *)
Definition mul_por_columnas (df : DataFrame) (pesos : list R) : res DataFrame :=
  if (length (columns df) =? length pesos)%nat
  then Ok (mkDataFrame (index_len df)
             (map (fun cw => map (Rmult (snd cw)) (fst cw))
                  (combine (columns df) pesos)))
  else Raise ValueError.

Fixpoint sumar_filas (a b : list R) : list R :=
  match a, b with
  | x :: a', y :: b' => (x + y) :: sumar_filas a' b'
  | _, _ => []
  end.

(** [frame.sum(axis=1)]: one total per date. *)
Definition sum_axis1 (df : DataFrame) : Series :=
  fold_right sumar_filas (repeat 0 (index_len df)) (columns df).

End Pandas.

Module Numpy.

(** [np.var(m)]: the population variance. *)
Definition var (m : Series) : fl :=
  match m with
  | [] => NaN
  | _ => Fin (suma_cuadrados m / INR (length m))
  end.

(** [np.cov(a, m)[0, 1]]: the sample covariance ([ddof = 1]); the two
    arrays are stacked, which needs equal lengths. *)
Definition cov01 (a m : Series) : res fl :=
  if (length a =? length m)%nat then
    if (length a <=? 1)%nat then Ok NaN
    else Ok (Fin (suma_productos a m / INR (length a - 1)))
  else Raise ValueError.

End Numpy.

(** ** The analytics functions of [app.py] *)

Import Pandas.

Definition calcular_rendimiento_anualizado (returns : Series) : fl :=
  fsub (fpow (fadd (Fin 1) (mean returns)) 252) (Fin 1).

Definition calcular_volatilidad_anualizada (returns : Series) : fl :=
  fmul (std returns) (fsqrt (Fin 252)).

Definition calcular_sharpe_ratio_anualizado (returns : Series) (risk_free_rate : R) : fl :=
  let excess_returns := fsub (mean returns) (Fin (risk_free_rate / 252)) in
  fmul (fdiv excess_returns (std returns)) (fsqrt (Fin 252)).

(** [(returns * pesos).sum(axis=1)], the expression shared by the three
    objectives and by [calcular_rendimientos_portafolio]. *)
Definition suma_ponderada (returns : DataFrame) (pesos : list R) : res Series :=
  escalado <- mul_por_columnas returns pesos ;;
  Ok (sum_axis1 escalado).

Definition minimizar_volatilidad (pesos : list R) (returns : DataFrame) : res fl :=
  portfolio_returns <- suma_ponderada returns pesos ;;
  Ok (calcular_volatilidad_anualizada portfolio_returns).

Definition maximizar_sharpe (pesos : list R) (returns : DataFrame)
    (risk_free_rate : R) : res fl :=
  portfolio_returns <- suma_ponderada returns pesos ;;
  Ok (fneg (calcular_sharpe_ratio_anualizado portfolio_returns risk_free_rate)).

Definition volatilidad_con_objetivo (pesos : list R) (returns : DataFrame)
    (target_return : R) : res fl :=
  portfolio_returns <- suma_ponderada returns pesos ;;
  let rendimiento_anualizado := calcular_rendimiento_anualizado portfolio_returns in
  let volatilidad := calcular_volatilidad_anualizada portfolio_returns in
  Ok (if fge rendimiento_anualizado (Fin target_return) then volatilidad else PInf).

(** *** The optimizer *)

Inductive tipo_restriccion : Type := Eq_r | Ineq_r.

Record restriccion : Type := mkRestriccion {
  tipo : tipo_restriccion;
  fun_r : list R -> res fl
}.

Inductive metodo : Type := SLSQP.

(** The arguments of one call of [scipy.optimize.minimize]. *)
Record llamada : Type := mkLlamada {
  fun_obj : list R -> res fl;
  x0 : list R;
  method : metodo;
  bounds : list (R * R);
  constraints : list restriccion
}.

Record OptimizeResult : Type := mkResult {
  x : list R;
  success : bool
}.

(** The solver is a library routine: it returns a result, of which the
    program only reads the field [x], or raises. *)
Definition minimizador : Type := llamada -> res OptimizeResult.

Definition pesos_iniciales (n : nat) : list R := repeat (1 / INR n) n.

Definition limites (n : nat) : list (R * R) := repeat (0, 1) n.

Definition restricciones : list restriccion :=
  [mkRestriccion Eq_r (fun pesos => Ok (Fin (suma pesos - 1)))].

Definition restriccion_rendimiento (returns : DataFrame) (target_return : R)
    : restriccion :=
  mkRestriccion Ineq_r (fun pesos =>
    portfolio_returns <- suma_ponderada returns pesos ;;
    Ok (fsub (calcular_rendimiento_anualizado portfolio_returns) (Fin target_return))).

Definition llamada_volatilidad (returns : DataFrame) : llamada :=
  let n := length (columns returns) in
  mkLlamada (fun pesos => minimizar_volatilidad pesos returns)
            (pesos_iniciales n) SLSQP (limites n) restricciones.

Definition llamada_sharpe (returns : DataFrame) (risk_free_rate : R) : llamada :=
  let n := length (columns returns) in
  mkLlamada (fun pesos => maximizar_sharpe pesos returns risk_free_rate)
            (pesos_iniciales n) SLSQP (limites n) restricciones.

Definition llamada_target (returns : DataFrame) (target_return : R) : llamada :=
  let n := length (columns returns) in
  mkLlamada (fun pesos => minimizar_volatilidad pesos returns)
            (pesos_iniciales n) SLSQP (limites n)
            (restricciones ++ [restriccion_rendimiento returns target_return]).

(** What [optimizar_portafolio] returns: a pair of arrays, or one array. *)
Inductive pesos_optimos : Type :=
| Par (pesos_volatilidad pesos_sharpe : list R)
| Unico (pesos_target : list R).

Definition optimizar_portafolio (minimize : minimizador) (returns : DataFrame)
    (target_return : option R) (risk_free_rate : R) : res pesos_optimos :=
  match target_return with
  | None =>
      resultado_volatilidad <- minimize (llamada_volatilidad returns) ;;
      resultado_sharpe <- minimize (llamada_sharpe returns risk_free_rate) ;;
      Ok (Par (x resultado_volatilidad) (x resultado_sharpe))
  | Some target =>
      resultado_target <- minimize (llamada_target returns target) ;;
      Ok (Unico (x resultado_target))
  end.

(** *** Returns and metrics *)

(** [calcular_metricas] on one column of the price table.  With prices that
    are never zero no column produces a missing value after the first row, so
    [dropna] removes the same single row from every column. *)
Definition calcular_metricas (df : list R)
    : res (list fl * list fl * list fl) :=
  let returns := dropna (pct_change df) in
  let cumulative_returns :=
    map (fun c => fsub c (Fin 1)) (cumprod (map (fadd (Fin 1)) returns)) in
  primero <- iloc0 df ;;
  let normalized_prices :=
    map (fun p => fmul (fdiv (Fin p) (Fin primero)) (Fin 100)) df in
  Ok (returns, cumulative_returns, normalized_prices).

Definition calcular_rendimientos_portafolio (returns : DataFrame)
    (weights : list R) : res Series :=
  suma_ponderada returns weights.

Definition calcular_rendimiento_ventana (returns : Series) (window : Z) : fl :=
  if (Z.of_nat (length returns) <? window)%Z then NaN
  else Fin (producto (map (Rplus 1) (iloc_ultimos window returns)) - 1).

Definition calcular_beta (asset_returns market_returns : Series) : res fl :=
  covariance <- Numpy.cov01 asset_returns market_returns ;;
  let market_variance := Numpy.var market_returns in
  Ok (if fne0 market_variance then fdiv covariance market_variance else NaN).

Definition calcular_sharpe_ratio (returns : Series) (risk_free_rate : R) : fl :=
  let excess_returns := map (fun r => r - risk_free_rate / 252) returns in
  fdiv (fmul (fsqrt (Fin 252)) (mean excess_returns)) (std excess_returns).

Definition calcular_sortino_ratio (returns : Series) (risk_free_rate : R)
    (target_return : R) : fl :=
  let excess_returns := map (fun r => r - risk_free_rate / 252) returns in
  let downside_returns :=
    filter (fun r => if Rlt_dec r target_return then true else false)
           excess_returns in
  let downside_deviation :=
    fsqrt (mean (map (fun r => r ^ 2) downside_returns)) in
  if fne0 downside_deviation
  then fdiv (fmul (fsqrt (Fin 252)) (mean excess_returns)) downside_deviation
  else NaN.

Definition calcular_var_cvar (returns : Series) (confidence : R) : res (fl * fl) :=
  VaR <- quantile returns (1 - confidence) ;;
  let CVaR := mean (filter (fun r => fle (Fin r) VaR) returns) in
  Ok (VaR, CVaR).

Definition calcular_var_cvar_ventana (returns : Series) (window : Z)
    : res (fl * fl) :=
  if (Z.of_nat (length returns) <? window)%Z then Ok (NaN, NaN)
  else
    let window_returns := iloc_ultimos window returns in
    calcular_var_cvar window_returns (95 / 100).

(** *** The page: validation of the weights

    The page computes the portfolio returns only in the [else] branch of its
    check of the user's input; [returns_simbolos] is [returns[simbolos]], one
    column per symbol. *)
Inductive pagina : Type :=
| SidebarError
| Analisis (portfolio_returns : res Series).

Definition pagina_portafolio (returns_simbolos : DataFrame) (pesos : list R)
    : pagina :=
  if negb (length (columns returns_simbolos) =? length pesos)%nat
     || (if Rlt_dec (1 / 1000000) (Rabs (suma pesos - 1)) then true else false)
  then SidebarError
  else Analisis (calcular_rendimientos_portafolio returns_simbolos pesos).

(** ** Reference notions used in the statements *)

(** The last [w] observations of a series. *)
Definition cola {A : Type} (w : nat) (s : list A) : list A :=
  skipn (length s - w) s.

(** Compound return of a series. *)
Definition rendimiento_compuesto (s : Series) : R :=
  producto (map (Rplus 1) s) - 1.

(** Simple returns of a price series, one per pair of consecutive prices. *)
Fixpoint cambios_desde (prev : R) (s : list R) : list R :=
  match s with
  | [] => []
  | p :: t => (p / prev - 1) :: cambios_desde p t
  end.

Definition cambios (prices : list R) : list R :=
  match prices with
  | [] => []
  | p :: t => cambios_desde p t
  end.

(** [price[0] * (1 + cumulative)]. *)
Definition reconstruir (p0 : R) (cumulative : list fl) : list fl :=
  map (fun c => fmul (Fin p0) (fadd (Fin 1) c)) cumulative.

(** The weighted total of row [i] of a frame. *)
Definition fila_ponderada (df : DataFrame) (pesos : list R) (i : nat) : R :=
  suma (map (fun cw => snd cw * nth i (fst cw) 0) (combine (columns df) pesos)).

(** Covariance over variance with one convention [ddof] for both. *)
Definition razon_homogenea (ddof : nat) (a m : Series) : R :=
  (suma_productos a m / INR (length m - ddof))
  / (suma_cuadrados m / INR (length m - ddof)).

(** A weight vector within the bounds, summing to 1 up to [tol]. *)
Definition factible (tol : R) (w : list R) : Prop :=
  Forall (fun p => 0 <= p <= 1) w /\ Rabs (suma w - 1) <= tol.

(** A point that meets the bounds and, up to [tol], the equality constraints
    of a call. *)
Definition cumple (tol : R) (c : llamada) (w : list R) : Prop :=
  Forall2 (fun p b => fst b <= p <= snd b) w (bounds c)
  /\ forall r, In r (constraints c) -> tipo r = Eq_r ->
       exists v, fun_r r w = Ok (Fin v) /\ Rabs v <= tol.

(** Scenario A of the specification: two assets, four dates. *)
Definition escenario_A : DataFrame :=
  mkDataFrame 4 [[1/100; -1/100; 2/100; -2/100]; [2/100; 1/100; -1/100; 0]].

(** ** Further functions of [app.py] *)

(** *** Price download

    The table as the data provider returns it: one row per date, one cell
    per symbol, [nan] where a quote is missing. *)
Definition Tabla : Type := list (list fl).

Fixpoint rellenar (prev fila : list fl) : list fl :=
  match prev, fila with
  | p :: prev', c :: fila' =>
      (if isnan c then p else c) :: rellenar prev' fila'
  | _, _ => fila
  end.

Fixpoint ffill_desde (prev : list fl) (t : Tabla) : Tabla :=
  match t with
  | [] => []
  | fila :: t' => let f := rellenar prev fila in f :: ffill_desde f t'
  end.

(** [data.ffill()]: a missing cell takes the last value above it. *)
Definition ffill (t : Tabla) : Tabla :=
  match t with
  | [] => []
  | fila :: t' => fila :: ffill_desde fila t'
  end.

Definition fila_completa (fila : list fl) : bool :=
  forallb (fun c => negb (isnan c)) fila.

(** [data.dropna()] on a frame: a row with a missing cell is dropped. *)
Definition dropna_filas (t : Tabla) : Tabla := filter fila_completa t.

(** [obtener_datos_acciones], from the downloaded closing prices on. *)
Definition obtener_datos_acciones (data : Tabla) : Tabla :=
  dropna_filas (ffill data).

(** *** Drawdown *)

Fixpoint expanding_max_desde (m : R) (s : list R) : list R :=
  match s with
  | [] => []
  | v :: t => let m' := Rmax m v in m' :: expanding_max_desde m' t
  end.

(** [series.expanding(min_periods=1).max()]. *)
Definition expanding_max (s : list R) : list R :=
  match s with
  | [] => []
  | v :: t => v :: expanding_max_desde v t
  end.

(** [(series - peak) / peak], row by row. *)
Fixpoint caida_relativa (s peak : list R) : list fl :=
  match s, peak with
  | v :: s', p :: peak' =>
      fdiv (fsub (Fin v) (Fin p)) (Fin p) :: caida_relativa s' peak'
  | _, _ => []
  end.

(** [s.iloc[-1]]. *)
Definition iloc_ultimo {A : Type} (s : list A) : res A :=
  match s with
  | [] => Raise IndexError
  | a :: t => Ok (last t a)
  end.

Definition calcular_ultimo_drawdown (series : Series) : res fl :=
  let peak := expanding_max series in
  let drawdown := caida_relativa series peak in
  iloc_ultimo drawdown.

(** *** The tables by window of the page *)




(** The largest value of [m :: s]. *)
Definition maximo_desde (m : R) (s : list R) : R := fold_left Rmax s m.

(** The empirical quantile of sorted data, as the specification means it:
    the value at position [(n-1)*q], interpolated linearly between the two
    order statistics around that position. *)
Definition cuantil_lineal (ord : list R) (q : R) : R :=
  let h := INR (length ord - 1) * q in
  let lo := Z.to_nat (Int_part h) in
  let hi := Nat.min (S lo) (length ord - 1) in
  nth lo ord 0 + (h - IZR (Int_part h)) * (nth hi ord 0 - nth lo ord 0).

(** ** The same functions over binary64

    The functions whose outcome the rounding can change, written over the
    machine floats, operation for operation; sums run left to right. *)

Module Binary64.

Import Floats.
Local Open Scope float_scope.
#[local] Set Warnings "-inexact-float".

Definition of_nat (n : nat) : float :=
  PrimFloat.of_uint63 (Uint63.of_Z (Z.of_nat n)).

Definition suma (l : list float) : float := fold_left PrimFloat.add l 0.

(** [Series.mean()]; an empty sum over a zero count is [nan]. *)
Definition mean (s : list float) : float := suma s / of_nat (length s).

Fixpoint insertar (x : float) (l : list float) : list float :=
  match l with
  | [] => [x]
  | y :: t => if PrimFloat.leb x y then x :: l else y :: insertar x t
  end.

Definition ordenar (l : list float) : list float := fold_right insertar [] l.

(** The largest [k' <= k] with [k' <= h], that is the floor of [h] for
    [0 <= h <= k]. *)
Fixpoint piso (h : float) (k : nat) : nat :=
  match k with
  | O => O
  | S k' => if PrimFloat.leb (of_nat k) h then k else piso h k'
  end.

(** The interpolation of [numpy]: from the upper value when the weight is
    at least one half. *)
Definition lerp (a b t : float) : float :=
  let diff_b_a := b - a in
  if PrimFloat.leb 0.5 t then b - diff_b_a * (1 - t) else a + diff_b_a * t.

Definition quantile (s : list float) (q : float) : res float :=
  if PrimFloat.leb 0 q && PrimFloat.leb q 1 then
    match s with
    | [] => Ok nan
    | _ =>
        let ord := ordenar s in
        let n := length s in
        let h := of_nat (n - 1) * q in
        let lo := piso h (n - 1) in
        let hi := Nat.min (S lo) (n - 1) in
        let g := h - of_nat lo in
        Ok (lerp (nth lo ord nan) (nth hi ord nan) g)
    end
  else Raise ValueError.

Definition calcular_var_cvar (returns : list float) (confidence : float)
    : res (float * float) :=
  VaR <- quantile returns (1 - confidence) ;;
  let CVaR := mean (filter (fun r => PrimFloat.leb r VaR) returns) in
  Ok (VaR, CVaR).

Fixpoint pct_desde (prev : float) (s : list float) : list float :=
  match s with
  | [] => []
  | p :: t => (p / prev - 1) :: pct_desde p t
  end.

Definition pct_change (s : list float) : list float :=
  match s with
  | [] => []
  | p :: t => nan :: pct_desde p t
  end.

Definition dropna (s : list float) : list float :=
  filter (fun v => negb (PrimFloat.is_nan v)) s.

Fixpoint cumprod_desde (acc : float) (s : list float) : list float :=
  match s with
  | [] => []
  | v :: t =>
      if PrimFloat.is_nan v then nan :: cumprod_desde acc t
      else let a := acc * v in a :: cumprod_desde a t
  end.

Definition cumprod (s : list float) : list float := cumprod_desde 1 s.

Definition calcular_metricas (df : list float)
    : res (list float * list float * list float) :=
  let returns := dropna (pct_change df) in
  let cumulative_returns :=
    map (fun c => c - 1) (cumprod (map (fun r => 1 + r) returns)) in
  primero <- Pandas.iloc0 df ;;
  let normalized_prices := map (fun p => p / primero * 100) df in
  Ok (returns, cumulative_returns, normalized_prices).

(** [price[0] * (1 + cumulative)]. *)
Definition reconstruir (p0 : float) (cumulative : list float) : list float :=
  map (fun c => p0 * (1 + c)) cumulative.

End Binary64.

(** * Properties *)

(** Settles the tests on reals that a closed term contains. *)
Ltac decidir :=
  repeat match goal with
  | |- context [Rlt_dec ?a ?b] => destruct (Rlt_dec a b); try lra
  | |- context [Rle_dec ?a ?b] => destruct (Rle_dec a b); try lra
  | |- context [Req_dec_T ?a ?b] => destruct (Req_dec_T a b); try lra
  end.

(** ** The portfolio aggregator *)

Section Aggregator.

Lemma sumar_filas_length (a b : list R) (n : nat) :
  length a = n -> length b = n -> length (sumar_filas a b) = n.
Proof.
  revert b n; induction a as [|u a IH]; intros [|v b] n Ha Hb; simpl in *;
    try congruence.
  destruct n as [|n]; [discriminate|].
  f_equal; apply IH; congruence.
Qed.

Lemma sumar_filas_nth (a b : list R) (i : nat) :
  length a = length b ->
  nth i (sumar_filas a b) 0 = nth i a 0 + nth i b 0.
Proof.
  revert b i; induction a as [|u a IH]; intros [|v b] i H; simpl in *;
    try discriminate.
  - destruct i; lra.
  - destruct i as [|i]; [reflexivity|].
    apply IH; congruence.
Qed.

Lemma fold_sumar_filas_length (n : nat) (cs : list Series) :
  Forall (fun c => length c = n) cs ->
  length (fold_right sumar_filas (repeat 0 n) cs) = n.
Proof.
  induction 1 as [|c cs Hc _ IH]; simpl.
  - apply repeat_length.
  - now apply sumar_filas_length.
Qed.

Lemma fold_sumar_filas_nth (n : nat) (cs : list Series) (i : nat) :
  Forall (fun c => length c = n) cs ->
  nth i (fold_right sumar_filas (repeat 0 n) cs) 0
  = suma (map (fun c => nth i c 0) cs).
Proof.
  induction 1 as [|c cs Hc Hcs IH]; simpl.
  - apply nth_repeat.
  - rewrite sumar_filas_nth, IH; [reflexivity|].
    now rewrite fold_sumar_filas_length.
Qed.

Lemma nth_escalada (w : R) (c : list R) (i : nat) :
  nth i (map (Rmult w) c) 0 = w * nth i c 0.
Proof.
  replace 0 with (w * 0) at 1 by lra.
  apply map_nth.
Qed.

Lemma columnas_escaladas (n : nat) (cs : list Series) (ws : list R) :
  Forall (fun c => length c = n) cs ->
  Forall (fun c => length c = n)
    (map (fun cw => map (Rmult (snd cw)) (fst cw)) (combine cs ws)).
Proof.
  intros H; revert ws; induction H as [|c cs Hc _ IH]; intros [|w ws]; simpl;
    constructor.
  - now rewrite length_map.
  - apply IH.
Qed.

Lemma suma_ponderada_ok (df : DataFrame) (pesos : list R) :
  length pesos = length (columns df) ->
  suma_ponderada df pesos
  = Ok (sum_axis1 (mkDataFrame (index_len df)
          (map (fun cw => map (Rmult (snd cw)) (fst cw))
               (combine (columns df) pesos)))).
Proof.
  intros H; unfold suma_ponderada, mul_por_columnas.
  rewrite H, Nat.eqb_refl; reflexivity.
Qed.

Lemma suma_ponderada_error (df : DataFrame) (pesos : list R) :
  length pesos <> length (columns df) ->
  suma_ponderada df pesos = Raise ValueError.
Proof.
  intros H; unfold suma_ponderada, mul_por_columnas.
  destruct (Nat.eqb_spec (length (columns df)) (length pesos)) as [E|E];
    [congruence | reflexivity].
Qed.

End Aggregator.

(** C7.  A weight list whose length is not the number of asset columns makes
    [calcular_rendimientos_portafolio] fail at once with the error of the
    library's length check, and the page reports the error without computing
    anything; with matching lengths the result has one entry per date, the
    weighted total of that row; on scenario A with weights 0.5/0.5 it is
    exactly [0.015, 0.0, 0.005, -0.01]. *)
Theorem portfolio_returns_dimension (df : DataFrame) (pesos : list R) :
  (length pesos <> length (columns df) ->
   calcular_rendimientos_portafolio df pesos = Raise ValueError
   /\ pagina_portafolio df pesos = SidebarError)
  /\ (length pesos = length (columns df) -> bien_formado df ->
      exists s, calcular_rendimientos_portafolio df pesos = Ok s
                /\ length s = index_len df
                /\ forall i, nth i s 0 = fila_ponderada df pesos i)
  /\ calcular_rendimientos_portafolio escenario_A [1/2; 1/2]
     = Ok [15/1000; 0; 5/1000; -1/100].
Proof.
  unfold calcular_rendimientos_portafolio; split; [|split].
  - intros H; split; [now apply suma_ponderada_error|].
    unfold pagina_portafolio.
    destruct (Nat.eqb_spec (length (columns df)) (length pesos)) as [E|_];
      [congruence | reflexivity].
  - intros Hlen Hwf. rewrite suma_ponderada_ok by assumption.
    eexists; split; [reflexivity|].
    unfold sum_axis1; simpl.
    pose proof (columnas_escaladas (index_len df) (columns df) pesos Hwf) as Hs.
    split; [now apply fold_sumar_filas_length|].
    intros i. rewrite fold_sumar_filas_nth by assumption.
    unfold fila_ponderada. rewrite map_map. f_equal.
    apply map_ext; intros [c w]; simpl. apply nth_escalada.
  - unfold suma_ponderada, escenario_A; simpl.
    unfold sum_axis1; simpl.
    repeat (f_equal; try lra).
Qed.

Lemma portfolio_returns_dimension_witness :
  (calcular_rendimientos_portafolio escenario_A [1/2] = Raise ValueError
   /\ pagina_portafolio escenario_A [1/2] = SidebarError)
  /\ exists s, calcular_rendimientos_portafolio escenario_A [1/2; 1/2] = Ok s
               /\ length s = 4%nat
               /\ forall i, nth i s 0 = fila_ponderada escenario_A [1/2; 1/2] i.
Proof.
  split.
  - apply (proj1 (portfolio_returns_dimension escenario_A [1/2])).
    simpl; lia.
  - apply (proj1 (proj2 (portfolio_returns_dimension escenario_A [1/2; 1/2]))).
    + reflexivity.
    + repeat constructor.
Defined.

(** ** Trailing windows *)

Lemma iloc_ultimos_cola {A : Type} (window : Z) (s : list A) :
  (1 <= window)%Z ->
  iloc_ultimos window s = cola (Z.to_nat window) s.
Proof.
  intros Hw; unfold iloc_ultimos, cola.
  destruct (Z.ltb_spec (- window) 0) as [_|H]; [|lia].
  f_equal; lia.
Qed.

Lemma iloc_ultimos_cero {A : Type} (s : list A) : iloc_ultimos 0 s = s.
Proof. reflexivity. Qed.

Lemma length_cola {A : Type} (w : nat) (s : list A) :
  (w <= length s)%nat -> length (cola w s) = w.
Proof. intros H; unfold cola; rewrite length_skipn; lia. Qed.

(** C4, as amended.  Both windowed functions return the undefined value when
    the series is shorter than the window; for a window of at least one
    observation that the series covers, they return what the plain function
    returns on the last [window] observations. *)
Theorem ventana_cola (returns : Series) (window : Z) :
  ((Z.of_nat (length returns) < window)%Z ->
     calcular_rendimiento_ventana returns window = NaN
     /\ calcular_var_cvar_ventana returns window = Ok (NaN, NaN))
  /\ ((1 <= window <= Z.of_nat (length returns))%Z ->
     calcular_rendimiento_ventana returns window
     = Fin (rendimiento_compuesto (cola (Z.to_nat window) returns))
     /\ calcular_var_cvar_ventana returns window
        = calcular_var_cvar (cola (Z.to_nat window) returns) (95 / 100)
     /\ length (cola (Z.to_nat window) returns) = Z.to_nat window).
Proof.
  unfold calcular_rendimiento_ventana, calcular_var_cvar_ventana; split.
  - intros H. destruct (Z.ltb_spec (Z.of_nat (length returns)) window); [|lia].
    split; reflexivity.
  - intros [H1 H2].
    destruct (Z.ltb_spec (Z.of_nat (length returns)) window); [lia|].
    rewrite iloc_ultimos_cola by assumption.
    repeat split. apply length_cola; lia.
Qed.

Lemma ventana_cola_witness :
  (calcular_rendimiento_ventana [1/100] 7 = NaN
   /\ calcular_var_cvar_ventana [1/100] 7 = Ok (NaN, NaN))
  /\ (calcular_rendimiento_ventana [1/100; 2/100; 3/100] 2
      = Fin (rendimiento_compuesto (cola 2 [1/100; 2/100; 3/100]))
      /\ calcular_var_cvar_ventana [1/100; 2/100; 3/100] 2
         = calcular_var_cvar (cola 2 [1/100; 2/100; 3/100]) (95 / 100)
      /\ length (cola 2 [1/100; 2/100; 3/100]) = 2%nat).
Proof.
  split.
  - apply (proj1 (ventana_cola [1/100] 7)). simpl; lia.
  - apply (proj2 (ventana_cola [1/100; 2/100; 3/100] 2)). simpl; lia.
Defined.

(** C4 as stated fails for the window 0: the series [0.1] covers it, its last
    0 observations compound to 0, and the function returns 0.1, the compound
    return of the whole series. *)
Lemma ventana_cero_contraejemplo :
  (0 <= Z.of_nat (length [1/10]))%Z
  /\ cola (Z.to_nat 0) [1/10] = []
  /\ calcular_rendimiento_ventana [1/10] 0 = Fin (rendimiento_compuesto [1/10])
  /\ calcular_rendimiento_ventana [1/10] 0
     <> Fin (rendimiento_compuesto (cola (Z.to_nat 0) [1/10])).
Proof.
  split; [simpl; lia|]. split; [reflexivity|]. split; [reflexivity|].
  unfold calcular_rendimiento_ventana, rendimiento_compuesto; simpl.
  intros H; injection H; lra.
Qed.

(** ** Returns and cumulative returns *)

Section Returns.

Lemma pct_desde_cambios (t : list R) : forall prev,
  Forall (fun p => p <> 0) (removelast (prev :: t)) ->
  pct_desde prev t = map Fin (cambios_desde prev t).
Proof.
  induction t as [|p t IH]; intros prev H; [reflexivity|].
  change (removelast (prev :: p :: t)) with (prev :: removelast (p :: t)) in H.
  inversion H as [|? ? Hprev Hrest]; subst.
  simpl pct_desde; simpl cambios_desde; simpl map.
  rewrite (IH p Hrest). f_equal.
  unfold fdiv. destruct (Req_dec_T prev 0); [contradiction|reflexivity].
Qed.

Lemma dropna_finitos (l : list R) : dropna (map Fin l) = map Fin l.
Proof.
  unfold dropna; induction l as [|a l IH]; simpl; [reflexivity|].
  now rewrite IH.
Qed.

Lemma length_cambios_desde (t : list R) : forall prev,
  length (cambios_desde prev t) = length t.
Proof. induction t as [|p t IH]; intros prev; simpl; [|rewrite IH]; reflexivity. Qed.

Lemma length_cumprod_desde (s : list fl) : forall acc,
  length (cumprod_desde acc s) = length s.
Proof.
  induction s as [|v s IH]; intros acc; [reflexivity|].
  destruct v; simpl; now rewrite IH.
Qed.

(** The running product over finite returns, entry by entry. *)
Lemma cumprod_desde_nth (l : list R) : forall acc k, (k < length l)%nat ->
  nth k (cumprod_desde (Fin acc) (map (fadd (Fin 1)) (map Fin l))) NaN
  = Fin (acc * producto (map (Rplus 1) (firstn (S k) l))).
Proof.
  induction l as [|a l IH]; intros acc k Hk; simpl in Hk; [lia|].
  destruct k as [|k].
  - simpl. f_equal. destruct l; simpl; lra.
  - change (nth (S k) (cumprod_desde (Fin acc)
              (map (fadd (Fin 1)) (map Fin (a :: l)))) NaN)
      with (nth k (cumprod_desde (Fin (acc * (1 + a)))
              (map (fadd (Fin 1)) (map Fin l))) NaN).
    rewrite IH by lia. f_equal.
    change (firstn (S (S k)) (a :: l)) with (a :: firstn (S k) l).
    simpl; lra.
Qed.

Lemma nth_menos_uno (l : list fl) (k : nat) :
  nth k (map (fun c => fsub c (Fin 1)) l) NaN = fsub (nth k l NaN) (Fin 1).
Proof. exact (map_nth (fun c => fsub c (Fin 1)) l NaN k). Qed.

(** Rebuilding prices from the cumulative returns, along the series. *)
Lemma reconstruir_desde (p0 : R) (t : list R) : forall prev acc,
  Forall (fun p => p <> 0) (removelast (prev :: t)) ->
  p0 * acc = prev ->
  reconstruir p0
    (map (fun c => fsub c (Fin 1))
       (cumprod_desde (Fin acc)
          (map (fadd (Fin 1)) (map Fin (cambios_desde prev t)))))
  = map Fin t.
Proof.
  induction t as [|p t IH]; intros prev acc H Hacc; [reflexivity|].
  change (removelast (prev :: p :: t)) with (prev :: removelast (p :: t)) in H.
  inversion H as [|? ? Hprev Hrest]; subst prev.
  assert (Hp0 : p0 <> 0) by (intros E; apply Hprev; rewrite E; lra).
  assert (Ha : acc <> 0) by (intros E; apply Hprev; rewrite E; lra).
  assert (Hp : p0 * (acc * (1 + (p / (p0 * acc) - 1))) = p)
    by (field; split; assumption).
  simpl. f_equal.
  - f_equal. rewrite <- Hp at 2. lra.
  - apply IH; assumption.
Qed.

End Returns.

Lemma calcular_metricas_sin_ceros (p0 : R) (resto : list R) :
  Forall (fun p => p <> 0) (removelast (p0 :: resto)) ->
  calcular_metricas (p0 :: resto)
  = Ok (map Fin (cambios (p0 :: resto)),
        map (fun c => fsub c (Fin 1))
          (cumprod (map (fadd (Fin 1)) (map Fin (cambios (p0 :: resto))))),
        map (fun p => fmul (fdiv (Fin p) (Fin p0)) (Fin 100)) (p0 :: resto)).
Proof.
  intros H. unfold calcular_metricas.
  change (dropna (pct_change (p0 :: resto))) with (dropna (pct_desde p0 resto)).
  rewrite (pct_desde_cambios resto p0 H), dropna_finitos.
  reflexivity.
Qed.

(** C6, as amended.  For a price series of at least two observations in which
    no price but possibly the last is zero, the cumulative returns are the
    running products of (1 + return) minus 1, and [price[0] * (1 +
    cumulative)] gives back the prices from the second observation on,
    within floating-point tolerance: with every operation carried out
    without rounding, as here, the prices come back exactly. *)
Theorem reconstruccion_precios (p0 : R) (resto : list R) :
  resto <> [] ->
  Forall (fun p => p <> 0) (removelast (p0 :: resto)) ->
  exists returns cumulative normalized,
    calcular_metricas (p0 :: resto) = Ok (returns, cumulative, normalized)
    /\ returns = map Fin (cambios (p0 :: resto))
    /\ length cumulative = length resto
    /\ (forall k, (k < length resto)%nat ->
          nth k cumulative NaN
          = Fin (rendimiento_compuesto (firstn (S k) (cambios (p0 :: resto)))))
    /\ reconstruir p0 cumulative = map Fin resto.
Proof.
  intros _ H.
  rewrite (calcular_metricas_sin_ceros p0 resto H).
  do 3 eexists; split; [reflexivity|]. split; [reflexivity|].
  unfold cumprod; simpl cambios. split; [|split].
  - now rewrite length_map, length_cumprod_desde, !length_map,
      length_cambios_desde.
  - intros k Hk.
    rewrite nth_menos_uno, cumprod_desde_nth
      by (rewrite length_cambios_desde; exact Hk).
    unfold rendimiento_compuesto; simpl; f_equal; lra.
  - apply reconstruir_desde; [assumption | lra].
Qed.

Lemma reconstruccion_precios_witness :
  exists returns cumulative normalized,
    calcular_metricas [100; 110; 99] = Ok (returns, cumulative, normalized)
    /\ returns = map Fin (cambios [100; 110; 99])
    /\ length cumulative = 2%nat
    /\ (forall k, (k < 2)%nat ->
          nth k cumulative NaN
          = Fin (rendimiento_compuesto (firstn (S k) (cambios [100; 110; 99]))))
    /\ reconstruir 100 cumulative = [Fin 110; Fin 99].
Proof.
  apply (reconstruccion_precios 100 [110; 99]).
  - discriminate.
  - simpl; repeat constructor; lra.
Defined.

(** C6 as stated fails on the price series [1, 0, 1]: the return after the
    zero price is infinite, the running product becomes undefined, and the
    price rebuilt for the last date is [nan] instead of 1. *)
Lemma reconstruccion_contraejemplo :
  exists returns cumulative normalized,
    calcular_metricas [1; 0; 1] = Ok (returns, cumulative, normalized)
    /\ nth 1 (reconstruir 1 cumulative) (Fin 0) = NaN
    /\ nth 1 (reconstruir 1 cumulative) (Fin 0) <> Fin 1.
Proof.
  do 3 eexists. split; [reflexivity|].
  assert (E : nth 1 (reconstruir 1
      (map (fun c => fsub c (Fin 1))
        (cumprod (map (fadd (Fin 1)) (dropna (pct_change [1; 0; 1]))))))
      (Fin 0) = NaN).
  { simpl. decidir; simpl.
    unfold signo; decidir; simpl.
    unfold signo; decidir; reflexivity. }
  split; [exact E | rewrite E; discriminate].
Qed.

(** C8, as amended.  [calcular_metricas] raises no error of its own for a
    short table: with one observation it returns an empty return series, and
    with none the normalisation by the first row fails with the library's
    index error.  With two or more observations, none zero except possibly
    the last, the returns are the simple changes between consecutive rows,
    one fewer than the prices. *)
Theorem returns_longitud (prices : list R) :
  (length prices = 0%nat -> calcular_metricas prices = Raise IndexError)
  /\ (length prices = 1%nat ->
      exists cumulative normalized,
        calcular_metricas prices = Ok ([], cumulative, normalized))
  /\ ((2 <= length prices)%nat ->
      Forall (fun p => p <> 0) (removelast prices) ->
      exists returns cumulative normalized,
        calcular_metricas prices = Ok (returns, cumulative, normalized)
        /\ returns = map Fin (cambios prices)
        /\ length returns = (length prices - 1)%nat).
Proof.
  split; [|split].
  - destruct prices; [reflexivity | discriminate].
  - destruct prices as [|p [|q t]]; try discriminate.
    intros _; do 2 eexists; reflexivity.
  - destruct prices as [|p0 resto]; simpl length; [lia|].
    intros _ H. rewrite (calcular_metricas_sin_ceros p0 resto H).
    do 3 eexists; split; [reflexivity|]. split; [reflexivity|].
    simpl cambios. rewrite length_map, length_cambios_desde. lia.
Qed.

Lemma returns_longitud_witness :
  calcular_metricas [] = Raise IndexError
  /\ (exists cumulative normalized,
        calcular_metricas [100] = Ok ([], cumulative, normalized))
  /\ exists returns cumulative normalized,
       calcular_metricas [100; 110; 99] = Ok (returns, cumulative, normalized)
       /\ returns = map Fin (cambios [100; 110; 99])
       /\ length returns = 2%nat.
Proof.
  split; [|split].
  - apply (proj1 (returns_longitud [])). reflexivity.
  - apply (proj1 (proj2 (returns_longitud [100]))). reflexivity.
  - apply (proj2 (proj2 (returns_longitud [100; 110; 99]))).
    + simpl; lia.
    + simpl; repeat constructor; lra.
Defined.

(** C8 as stated fails on a table with a single observation: nothing is
    raised, and the returns come back empty. *)
Lemma returns_un_precio_contraejemplo :
  (length [100] < 2)%nat
  /\ calcular_metricas [100]
     = Ok ([], [], [fmul (fdiv (Fin 100) (Fin 100)) (Fin 100)])
  /\ forall e, calcular_metricas [100] <> Raise e.
Proof.
  split; [simpl; lia|]. split; [reflexivity|]. intros e; discriminate.
Qed.

(** ** Beta *)

Section Beta.

Lemma suma_productos_diagonal (l : list R) (c : R) :
  suma (map (fun p => (fst p - c) * (snd p - c)) (combine l l))
  = suma (map (fun x => (x - c) ^ 2) l).
Proof.
  unfold suma; induction l as [|a l IH]; [reflexivity|].
  cbn [combine map fold_right fst snd].
  rewrite IH; ring.
Qed.

Lemma suma_productos_mismo (r : Series) : suma_productos r r = suma_cuadrados r.
Proof. apply suma_productos_diagonal. Qed.

Lemma np_var_no_nula (m : Series) :
  (1 <= length m)%nat -> Numpy.var m <> Fin 0 ->
  Numpy.var m = Fin (suma_cuadrados m / INR (length m))
  /\ suma_cuadrados m <> 0.
Proof.
  intros Hn Hv. destruct m as [|a m]; [simpl in Hn; lia|].
  split; [reflexivity|].
  intros E; apply Hv. unfold Numpy.var. rewrite E. f_equal.
  unfold Rdiv; ring.
Qed.

(** What [calcular_beta] returns on two series of equal length with a
    non-zero market variance. *)
Lemma calcular_beta_valor (a m : Series) :
  length a = length m -> (2 <= length m)%nat -> Numpy.var m <> Fin 0 ->
  calcular_beta a m
  = Ok (Fin (suma_productos a m / (INR (length m) - 1)
             / (suma_cuadrados m / INR (length m)))).
Proof.
  intros Hlen Hn Hv.
  destruct (np_var_no_nula m ltac:(lia) Hv) as [Ev Hs].
  assert (Hn0 : INR (length m) <> 0) by (apply not_0_INR; lia).
  unfold calcular_beta, Numpy.cov01.
  rewrite Hlen, Nat.eqb_refl.
  destruct (Nat.leb_spec (length m) 1) as [H|_]; [lia|].
  cbn [bind]. rewrite Ev. cbn [fne0 fdiv].
  rewrite minus_INR by lia. change (INR 1) with 1.
  destruct (Req_dec_T (suma_cuadrados m / INR (length m)) 0) as [E|_].
  - exfalso; apply Hs.
    apply (Rmult_eq_compat_r (INR (length m))) in E.
    unfold Rdiv in E. rewrite Rmult_assoc, Rinv_l, Rmult_1_r, Rmult_0_l in E;
      assumption.
  - reflexivity.
Qed.

End Beta.

(** C9.  On a series of at least two observations with non-zero variance,
    [calcular_beta r r] is n/(n-1) and not 1: the covariance is the sample
    one and the variance the population one.  In general the value is
    n/(n-1) times the covariance-to-variance ratio taken with one convention
    for both, whichever convention that is. *)
Theorem beta_inflada (r a m : Series) :
  ((2 <= length r)%nat -> Numpy.var r <> Fin 0 ->
     calcular_beta r r = Ok (Fin (INR (length r) / (INR (length r) - 1)))
     /\ INR (length r) / (INR (length r) - 1) <> 1)
  /\ (length a = length m -> (2 <= length m)%nat -> Numpy.var m <> Fin 0 ->
     calcular_beta a m
     = Ok (Fin (INR (length m) / (INR (length m) - 1) * razon_homogenea 0 a m))
     /\ razon_homogenea 1 a m = razon_homogenea 0 a m).
Proof.
  split.
  - intros Hn Hv.
    destruct (np_var_no_nula r ltac:(lia) Hv) as [_ Hs].
    assert (H2 : 2 <= INR (length r)) by (apply (le_INR 2); lia).
    rewrite calcular_beta_valor by (assumption || reflexivity).
    rewrite suma_productos_mismo. split.
    + do 2 f_equal. field. repeat split; lra.
    + intros E. apply (Rmult_eq_compat_r (INR (length r) - 1)) in E.
      unfold Rdiv in E. rewrite Rmult_assoc, Rinv_l in E; lra.
  - intros Hlen Hn Hv.
    destruct (np_var_no_nula m ltac:(lia) Hv) as [_ Hs].
    assert (H2 : 2 <= INR (length m)) by (apply (le_INR 2); lia).
    rewrite calcular_beta_valor by assumption.
    unfold razon_homogenea. rewrite Nat.sub_0_r, minus_INR by lia.
    change (INR 1) with 1. split.
    + do 2 f_equal. field. repeat split; lra.
    + field. repeat split; lra.
Qed.

Lemma beta_inflada_witness :
  (calcular_beta [0; 1] [0; 1] = Ok (Fin (INR 2 / (INR 2 - 1)))
   /\ INR 2 / (INR 2 - 1) <> 1)
  /\ (calcular_beta [1; 0] [0; 1]
      = Ok (Fin (INR 2 / (INR 2 - 1) * razon_homogenea 0 [1; 0] [0; 1]))
      /\ razon_homogenea 1 [1; 0] [0; 1] = razon_homogenea 0 [1; 0] [0; 1]).
Proof.
  assert (Hv : Numpy.var [0; 1] <> Fin 0).
  { unfold Numpy.var, suma_cuadrados, media_R; simpl.
    intros H; injection H; lra. }
  split.
  - apply (proj1 (beta_inflada [0; 1] [] [])); [simpl; lia | exact Hv].
  - apply (proj2 (beta_inflada [] [1; 0] [0; 1]));
      [reflexivity | simpl; lia | exact Hv].
Defined.

(** ** Sharpe and Sortino ratios *)

Section Ratios.

Lemma suma_desviaciones_no_negativa (mu : R) (l : list R) :
  0 <= suma (map (fun x => (x - mu) ^ 2) l).
Proof.
  unfold suma; induction l as [|a l IH]; cbn [map fold_right]; [lra|].
  pose proof (pow2_ge_0 (a - mu)). lra.
Qed.

Lemma suma_cuadrados_no_negativa (l : list R) : 0 <= suma_cuadrados l.
Proof. apply suma_desviaciones_no_negativa. Qed.

Lemma suma_repeat (e : R) (n : nat) : suma (repeat e n) = INR n * e.
Proof.
  induction n as [|n IH]; [simpl; lra|].
  rewrite S_INR. cbn [repeat suma fold_right]. fold (suma (repeat e n)).
  rewrite IH; ring.
Qed.

Lemma media_repeat (e : R) (n : nat) : (1 <= n)%nat -> media_R (repeat e n) = e.
Proof.
  intros Hn. unfold media_R. rewrite suma_repeat, repeat_length.
  field. apply not_0_INR; lia.
Qed.

Lemma suma_cuadrados_repeat (e : R) (n : nat) :
  (1 <= n)%nat -> suma_cuadrados (repeat e n) = 0.
Proof.
  intros Hn. unfold suma_cuadrados.
  rewrite (media_repeat e n Hn), map_repeat, suma_repeat. ring.
Qed.

Lemma std_repeat (e : R) (n : nat) : (2 <= n)%nat -> std (repeat e n) = Fin 0.
Proof.
  intros Hn. unfold std, var. rewrite repeat_length.
  destruct (Nat.leb_spec n 1) as [H|_]; [lia|].
  rewrite suma_cuadrados_repeat by lia.
  replace (0 / INR (n - 1)) with 0 by (unfold Rdiv; ring).
  cbn [fsqrt]. destruct (Rlt_dec 0 0) as [H|_]; [lra|].
  now rewrite sqrt_0.
Qed.

Lemma mean_repeat (e : R) (n : nat) : (1 <= n)%nat -> mean (repeat e n) = Fin e.
Proof.
  intros Hn. unfold mean. rewrite (media_repeat e n Hn).
  destruct n; [lia | reflexivity].
Qed.

Lemma sqrt_252_pos : 0 < sqrt 252.
Proof. apply sqrt_lt_R0; lra. Qed.

Lemma fsqrt_252 : fsqrt (Fin 252) = Fin (sqrt 252).
Proof. cbn [fsqrt]. destruct (Rlt_dec 252 0); [lra | reflexivity]. Qed.

(** With a spread that is not zero the ratio is the annualised quotient of
    the mean and the standard deviation of the excess returns. *)
Lemma sharpe_formula (returns : Series) (risk_free_rate : R) :
  let excess := map (fun r => r - risk_free_rate / 252) returns in
  (2 <= length returns)%nat -> suma_cuadrados excess <> 0 ->
  calcular_sharpe_ratio returns risk_free_rate
  = Fin (sqrt 252 * media_R excess
         / sqrt (suma_cuadrados excess / INR (length excess - 1))).
Proof.
  intros excess Hn Hs. unfold calcular_sharpe_ratio. fold excess.
  assert (Hlen : length excess = length returns) by apply length_map.
  pose proof (suma_cuadrados_no_negativa excess) as Hsq.
  assert (Hd : 0 < INR (length excess - 1)) by (apply lt_0_INR; lia).
  assert (Hv : 0 < suma_cuadrados excess / INR (length excess - 1)).
  { apply Rdiv_lt_0_compat; lra. }
  rewrite fsqrt_252. unfold std, var, mean.
  destruct (Nat.leb_spec (length excess) 1) as [H|_]; [lia|].
  destruct excess as [|a l] eqn:E; [simpl in Hlen; lia|]. rewrite <- E in *.
  cbn [fsqrt fmul fdiv].
  destruct (Rlt_dec (suma_cuadrados excess / INR (length excess - 1)) 0);
    [lra|].
  destruct (Req_dec_T (sqrt (suma_cuadrados excess / INR (length excess - 1))) 0)
    as [E0|_]; [|reflexivity].
  pose proof (sqrt_lt_R0 _ Hv); lra.
Qed.

Lemma sortino_constante (c risk_free_rate : R) (n : nat) :
  (1 <= n)%nat -> risk_free_rate / 252 < c ->
  calcular_sortino_ratio (repeat c n) risk_free_rate 0 = NaN.
Proof.
  intros Hn Hc. unfold calcular_sortino_ratio.
  rewrite map_repeat.
  replace (filter _ (repeat (c - risk_free_rate / 252) n)) with (@nil R).
  - rewrite fsqrt_252, mean_repeat by assumption. reflexivity.
  - clear Hn. induction n as [|n IH]; [reflexivity|]. simpl.
    destruct (Rlt_dec (c - risk_free_rate / 252) 0); [lra | exact IH].
Qed.

End Ratios.

(** C5.  On a constant series whose value exceeds the daily risk-free rate
    the standard deviation of the excess returns is zero, the division is
    carried out all the same, and [calcular_sharpe_ratio] returns plus
    infinity, not the undefined value. *)
Theorem sharpe_constante (c risk_free_rate : R) (n : nat) :
  (2 <= n)%nat -> risk_free_rate / 252 < c ->
  std (map (fun r => r - risk_free_rate / 252) (repeat c n)) = Fin 0
  /\ calcular_sharpe_ratio (repeat c n) risk_free_rate = PInf
  /\ calcular_sharpe_ratio (repeat c n) risk_free_rate <> NaN.
Proof.
  intros Hn Hc.
  assert (Hs : std (map (fun r => r - risk_free_rate / 252) (repeat c n)) = Fin 0)
    by (rewrite map_repeat; now apply std_repeat).
  assert (E : calcular_sharpe_ratio (repeat c n) risk_free_rate = PInf).
  { unfold calcular_sharpe_ratio. rewrite Hs, map_repeat.
    rewrite mean_repeat by lia. rewrite fsqrt_252. cbn [fmul fdiv].
    destruct (Req_dec_T 0 0) as [_|H]; [|lra].
    pose proof sqrt_252_pos as Hp.
    unfold signo.
    destruct (Rlt_dec 0 (sqrt 252 * (c - risk_free_rate / 252))) as [_|H];
      [reflexivity|].
    exfalso; apply H. apply Rmult_lt_0_compat; lra. }
  split; [exact Hs|]. split; [exact E | rewrite E; discriminate].
Qed.

Lemma sharpe_constante_witness :
  std (map (fun r => r - (2/100) / 252) (repeat (1/1000) 2)) = Fin 0
  /\ calcular_sharpe_ratio [1/1000; 1/1000] (2/100) = PInf
  /\ calcular_sharpe_ratio [1/1000; 1/1000] (2/100) <> NaN.
Proof.
  apply (sharpe_constante (1/1000) (2/100) 2); [lia | lra].
Defined.

(** ** The objective of the target-return mode *)

Section Objective.

Lemma rendimiento_anualizado_finito (pr : Series) :
  pr <> [] ->
  calcular_rendimiento_anualizado pr = Fin ((1 + media_R pr) ^ 252 - 1).
Proof.
  intros H. unfold calcular_rendimiento_anualizado, mean.
  destruct pr as [|a l]; [congruence|]. reflexivity.
Qed.

Lemma fge_flt (u v : R) : fge (Fin u) (Fin v) = negb (flt (Fin u) (Fin v)).
Proof. cbn [fge flt]. decidir; reflexivity. Qed.

Lemma volatilidad_no_infinita (pr : Series) :
  calcular_volatilidad_anualizada pr <> PInf.
Proof.
  unfold calcular_volatilidad_anualizada, std, var.
  rewrite fsqrt_252.
  destruct (length pr <=? 1)%nat; cbn [fsqrt fmul]; [discriminate|].
  destruct (Rlt_dec _ 0); cbn [fmul]; discriminate.
Qed.

End Objective.

(** C2, as amended.  On a portfolio with at least one date,
    [volatilidad_con_objetivo] is plus infinity where the annualised return is
    strictly below the target and the annualised volatility elsewhere.  The
    target-return solve does not use it: its objective is the plain
    annualised volatility, and the floor on the return is passed to the
    solver as an inequality constraint. *)
Theorem objetivo_con_restriccion (returns : DataFrame) (pesos : list R)
    (target_return : R) (pr : Series) :
  suma_ponderada returns pesos = Ok pr -> pr <> [] ->
  volatilidad_con_objetivo pesos returns target_return
  = Ok (if flt (calcular_rendimiento_anualizado pr) (Fin target_return)
        then PInf else calcular_volatilidad_anualizada pr)
  /\ fun_obj (llamada_target returns target_return) pesos
     = Ok (calcular_volatilidad_anualizada pr)
  /\ fun_obj (llamada_target returns target_return) pesos <> Ok PInf
  /\ constraints (llamada_target returns target_return)
     = restricciones ++ [restriccion_rendimiento returns target_return]
  /\ tipo (restriccion_rendimiento returns target_return) = Ineq_r
  /\ fun_r (restriccion_rendimiento returns target_return) pesos
     = Ok (fsub (calcular_rendimiento_anualizado pr) (Fin target_return)).
Proof.
  intros Hpr Hne.
  unfold volatilidad_con_objetivo, llamada_target, restriccion_rendimiento,
    minimizar_volatilidad.
  cbn [fun_obj constraints tipo fun_r]. rewrite Hpr. cbn [bind].
  repeat split.
  - rewrite (rendimiento_anualizado_finito pr Hne), fge_flt.
    now destruct (flt _ _).
  - intros E; injection E; apply volatilidad_no_infinita.
Qed.

Lemma objetivo_con_restriccion_witness :
  volatilidad_con_objetivo [1] (mkDataFrame 2 [[1/100; -1/100]]) (1/10)
  = Ok (if flt (calcular_rendimiento_anualizado [1 * (1/100) + 0; 1 * (-1/100) + 0])
               (Fin (1/10))
        then PInf
        else calcular_volatilidad_anualizada [1 * (1/100) + 0; 1 * (-1/100) + 0])
  /\ fun_obj (llamada_target (mkDataFrame 2 [[1/100; -1/100]]) (1/10)) [1]
     = Ok (calcular_volatilidad_anualizada [1 * (1/100) + 0; 1 * (-1/100) + 0])
  /\ fun_obj (llamada_target (mkDataFrame 2 [[1/100; -1/100]]) (1/10)) [1]
     <> Ok PInf
  /\ constraints (llamada_target (mkDataFrame 2 [[1/100; -1/100]]) (1/10))
     = restricciones
       ++ [restriccion_rendimiento (mkDataFrame 2 [[1/100; -1/100]]) (1/10)]
  /\ tipo (restriccion_rendimiento (mkDataFrame 2 [[1/100; -1/100]]) (1/10))
     = Ineq_r
  /\ fun_r (restriccion_rendimiento (mkDataFrame 2 [[1/100; -1/100]]) (1/10)) [1]
     = Ok (fsub (calcular_rendimiento_anualizado
                   [1 * (1/100) + 0; 1 * (-1/100) + 0]) (Fin (1/10))).
Proof.
  apply (objetivo_con_restriccion (mkDataFrame 2 [[1/100; -1/100]]) [1] (1/10)
           [1 * (1/100) + 0; 1 * (-1/100) + 0]).
  - reflexivity.
  - discriminate.
Defined.

(** C2 as stated fails where the return is below the target: on one asset
    with returns 0.01 and -0.01, fully weighted, the annualised return is 0,
    below the target 0.10; [volatilidad_con_objetivo] is plus infinity there,
    and the objective handed to the solver in target mode is not. *)
Lemma objetivo_contraejemplo :
  calcular_rendimiento_anualizado [1 * (1/100) + 0; 1 * (-1/100) + 0] = Fin 0
  /\ volatilidad_con_objetivo [1] (mkDataFrame 2 [[1/100; -1/100]]) (1/10)
     = Ok PInf
  /\ fun_obj (llamada_target (mkDataFrame 2 [[1/100; -1/100]]) (1/10)) [1]
     <> volatilidad_con_objetivo [1] (mkDataFrame 2 [[1/100; -1/100]]) (1/10).
Proof.
  assert (E : calcular_rendimiento_anualizado
                [1 * (1/100) + 0; 1 * (-1/100) + 0] = Fin 0).
  { rewrite rendimiento_anualizado_finito by discriminate.
    replace (media_R [1 * (1/100) + 0; 1 * (-1/100) + 0]) with 0
      by (unfold media_R; simpl; lra).
    rewrite Rplus_0_r, pow1. f_equal; lra. }
  assert (V : volatilidad_con_objetivo [1] (mkDataFrame 2 [[1/100; -1/100]]) (1/10)
              = Ok PInf).
  { unfold volatilidad_con_objetivo, suma_ponderada, mul_por_columnas, sum_axis1.
    cbn [columns index_len length Nat.eqb combine map fst snd bind
         fold_right repeat sumar_filas].
    rewrite E. cbn [fge]. destruct (Rle_dec (1/10) 0); [lra | reflexivity]. }
  split; [exact E|]. split; [exact V|].
  rewrite V. intros H; injection H.
  apply (volatilidad_no_infinita [1 * (1/100) + 0; 1 * (-1/100) + 0]).
Qed.

(** ** The optimizer entry point *)

Section Objetivos.

Lemma std_valor (pr : Series) :
  (2 <= length pr)%nat ->
  std pr = Fin (sqrt (suma_cuadrados pr / (INR (length pr) - 1))).
Proof.
  intros Hn. unfold std, var.
  destruct (Nat.leb_spec (length pr) 1) as [H|_]; [lia|].
  rewrite minus_INR by lia. change (INR 1) with 1.
  assert (H2 : 2 <= INR (length pr)) by (apply (le_INR 2); lia).
  pose proof (suma_cuadrados_no_negativa pr) as Hs.
  assert (Hq : 0 <= suma_cuadrados pr / (INR (length pr) - 1)).
  { apply Rmult_le_pos; [assumption|]. apply Rlt_le, Rinv_0_lt_compat. lra. }
  cbn [fsqrt]. destruct (Rlt_dec _ 0); [lra | reflexivity].
Qed.

Lemma desviacion_positiva (pr : Series) :
  (2 <= length pr)%nat -> suma_cuadrados pr <> 0 ->
  0 < sqrt (suma_cuadrados pr / (INR (length pr) - 1)).
Proof.
  intros Hn Hs.
  assert (H2 : 2 <= INR (length pr)) by (apply (le_INR 2); lia).
  pose proof (suma_cuadrados_no_negativa pr).
  apply sqrt_lt_R0, Rdiv_lt_0_compat; lra.
Qed.

Lemma minimizar_volatilidad_valor (returns : DataFrame) (pesos : list R)
    (pr : Series) :
  suma_ponderada returns pesos = Ok pr -> (2 <= length pr)%nat ->
  minimizar_volatilidad pesos returns
  = Ok (Fin (sqrt (suma_cuadrados pr / (INR (length pr) - 1)) * sqrt 252)).
Proof.
  intros Hpr Hn. unfold minimizar_volatilidad. rewrite Hpr. cbn [bind].
  unfold calcular_volatilidad_anualizada.
  now rewrite (std_valor pr Hn), fsqrt_252.
Qed.

Lemma maximizar_sharpe_valor (returns : DataFrame) (pesos : list R)
    (risk_free_rate : R) (pr : Series) :
  suma_ponderada returns pesos = Ok pr -> (2 <= length pr)%nat ->
  suma_cuadrados pr <> 0 ->
  maximizar_sharpe pesos returns risk_free_rate
  = Ok (Fin (- ((media_R pr - risk_free_rate / 252)
                / sqrt (suma_cuadrados pr / (INR (length pr) - 1))
                * sqrt 252))).
Proof.
  intros Hpr Hn Hs. unfold maximizar_sharpe. rewrite Hpr. cbn [bind].
  unfold calcular_sharpe_ratio_anualizado.
  rewrite (std_valor pr Hn), fsqrt_252.
  pose proof (desviacion_positiva pr Hn Hs) as Hpos.
  assert (Hm : mean pr = Fin (media_R pr)).
  { destruct pr; [simpl in Hn; lia | reflexivity]. }
  rewrite Hm. cbn [fsub fneg fadd fdiv].
  destruct (Req_dec_T (sqrt (suma_cuadrados pr / (INR (length pr) - 1))) 0);
    [lra | reflexivity].
Qed.

End Objetivos.

(** C10.  Without a target the entry point runs two solves and returns the
    pair of their arrays, the first of the minimum-volatility solve and the
    second of the maximum-Sharpe solve; with a target it runs one solve and
    returns a single array; an error of the solver passes through, and no
    call yields both shapes.  The two solves of the first mode are given the
    same uniform start, the same bounds and the same single constraint
    (weights summing to 1) and differ in the objective: the annualised
    volatility of the weighted returns for one, the negated annualised
    Sharpe ratio for the other. *)
Theorem optimizar_portafolio_formas (minimize : minimizador)
    (returns : DataFrame) (risk_free_rate : R) :
  (forall rv rs,
     minimize (llamada_volatilidad returns) = Ok rv ->
     minimize (llamada_sharpe returns risk_free_rate) = Ok rs ->
     optimizar_portafolio minimize returns None risk_free_rate
     = Ok (Par (x rv) (x rs)))
  /\ (forall e,
        minimize (llamada_volatilidad returns) = Raise e ->
        optimizar_portafolio minimize returns None risk_free_rate = Raise e)
  /\ (forall rv e,
        minimize (llamada_volatilidad returns) = Ok rv ->
        minimize (llamada_sharpe returns risk_free_rate) = Raise e ->
        optimizar_portafolio minimize returns None risk_free_rate = Raise e)
  /\ (forall target rt,
        minimize (llamada_target returns target) = Ok rt ->
        optimizar_portafolio minimize returns (Some target) risk_free_rate
        = Ok (Unico (x rt)))
  /\ (forall target e,
        minimize (llamada_target returns target) = Raise e ->
        optimizar_portafolio minimize returns (Some target) risk_free_rate
        = Raise e)
  /\ (forall target v s,
        optimizar_portafolio minimize returns (Some target) risk_free_rate
        <> Ok (Par v s))
  /\ (forall w,
        optimizar_portafolio minimize returns None risk_free_rate
        <> Ok (Unico w))
  /\ x0 (llamada_volatilidad returns)
     = repeat (1 / INR (length (columns returns))) (length (columns returns))
  /\ x0 (llamada_sharpe returns risk_free_rate) = x0 (llamada_volatilidad returns)
  /\ bounds (llamada_volatilidad returns)
     = repeat (0, 1) (length (columns returns))
  /\ bounds (llamada_sharpe returns risk_free_rate)
     = bounds (llamada_volatilidad returns)
  /\ constraints (llamada_sharpe returns risk_free_rate)
     = constraints (llamada_volatilidad returns)
  /\ (exists r, constraints (llamada_volatilidad returns) = [r]
                /\ tipo r = Eq_r
                /\ forall pesos, fun_r r pesos = Ok (Fin (suma pesos - 1)))
  /\ (forall pesos pr,
        suma_ponderada returns pesos = Ok pr -> (2 <= length pr)%nat ->
        suma_cuadrados pr <> 0 ->
        fun_obj (llamada_volatilidad returns) pesos
        = Ok (Fin (sqrt (suma_cuadrados pr / (INR (length pr) - 1)) * sqrt 252))
        /\ fun_obj (llamada_sharpe returns risk_free_rate) pesos
           = Ok (Fin (- ((media_R pr - risk_free_rate / 252)
                         / sqrt (suma_cuadrados pr / (INR (length pr) - 1))
                         * sqrt 252)))
        /\ forall target,
             fun_obj (llamada_target returns target) pesos
             = fun_obj (llamada_volatilidad returns) pesos).
Proof.
  unfold optimizar_portafolio.
  split; [intros rv rs -> ->; reflexivity|].
  split; [intros e ->; reflexivity|].
  split; [intros rv e -> ->; reflexivity|].
  split; [intros target rt ->; reflexivity|].
  split; [intros target e ->; reflexivity|].
  split.
  { intros target v s.
    destruct (minimize (llamada_target returns target)); discriminate. }
  split.
  { intros w.
    destruct (minimize (llamada_volatilidad returns)); [|discriminate].
    cbn [bind].
    destruct (minimize (llamada_sharpe returns risk_free_rate)); discriminate. }
  do 5 (split; [reflexivity|]).
  split.
  { eexists; split; [reflexivity|]. split; reflexivity. }
  intros pesos pr Hpr Hn Hs. cbn [fun_obj llamada_volatilidad llamada_sharpe].
  split; [now apply minimizar_volatilidad_valor|].
  split; [now apply maximizar_sharpe_valor|].
  reflexivity.
Qed.

Lemma optimizar_portafolio_formas_witness :
  optimizar_portafolio (fun c => Ok (mkResult (x0 c) false)) escenario_A None
    (2/100)
  = Ok (Par (x0 (llamada_volatilidad escenario_A))
            (x0 (llamada_sharpe escenario_A (2/100))))
  /\ (fun_obj (llamada_volatilidad escenario_A) [1; 0]
      = Ok (Fin (sqrt (suma_cuadrados [1/100; -1/100; 2/100; -2/100]
                       / (INR 4 - 1)) * sqrt 252))
      /\ fun_obj (llamada_sharpe escenario_A (2/100)) [1; 0]
         = Ok (Fin (- ((media_R [1/100; -1/100; 2/100; -2/100] - 2/100 / 252)
                       / sqrt (suma_cuadrados [1/100; -1/100; 2/100; -2/100]
                               / (INR 4 - 1))
                       * sqrt 252)))).
Proof.
  pose proof (optimizar_portafolio_formas
                (fun c => Ok (mkResult (x0 c) false)) escenario_A (2/100))
    as (H1 & _ & _ & _ & _ & _ & _ & _ & _ & _ & _ & _ & _ & H14).
  split.
  - exact (H1 _ _ eq_refl eq_refl).
  - assert (Hpr : suma_ponderada escenario_A [1; 0]
                  = Ok [1/100; -1/100; 2/100; -2/100]).
    { unfold suma_ponderada, escenario_A, mul_por_columnas, sum_axis1.
      cbn [columns index_len length Nat.eqb combine map fst snd bind
           fold_right repeat sumar_filas].
      repeat (f_equal; try lra). }
    destruct (H14 [1; 0] [1/100; -1/100; 2/100; -2/100] Hpr) as (Hv & Hs & _).
    + simpl; lia.
    + unfold suma_cuadrados, media_R; simpl; lra.
    + split; [exact Hv | exact Hs].
Defined.

(** ** Historical VaR and CVaR *)

Section Quantile.

Lemma insertar_perm (x : R) (l : list R) : Permutation (insertar x l) (x :: l).
Proof.
  induction l as [|y t IH]; simpl; [reflexivity|].
  destruct (Rle_dec x y); [reflexivity|].
  rewrite IH. apply perm_swap.
Qed.

Lemma ordenar_perm (l : list R) : Permutation (ordenar l) l.
Proof.
  induction l as [|a l IH]; simpl; [reflexivity|].
  rewrite insertar_perm. now constructor.
Qed.

Lemma insertar_sorted (x : R) (l : list R) :
  StronglySorted Rle l -> StronglySorted Rle (insertar x l).
Proof.
  induction 1 as [|y t Ht IH Hy]; simpl.
  - repeat constructor.
  - destruct (Rle_dec x y) as [Hxy|Hxy].
    + constructor; [now constructor|].
      constructor; [assumption|].
      eapply Forall_impl; [|exact Hy]. intros z Hz; simpl in Hz; lra.
    + constructor; [assumption|].
      rewrite (insertar_perm x t).
      constructor; [lra | assumption].
Qed.

Lemma ordenar_sorted (l : list R) : StronglySorted Rle (ordenar l).
Proof.
  induction l as [|a l IH]; simpl; [constructor|].
  now apply insertar_sorted.
Qed.

Lemma sorted_nth (l : list R) :
  StronglySorted Rle l ->
  forall i j, (i <= j < length l)%nat -> nth i l 0 <= nth j l 0.
Proof.
  induction 1 as [|a t Ht IH Ha]; intros i j [Hij Hj]; simpl in Hj; [lia|].
  destruct i as [|i], j as [|j]; simpl; try lia; try lra.
  - rewrite Forall_forall in Ha. apply Ha, nth_In; lia.
  - apply IH; lia.
Qed.

(** The integer part of a virtual index [(n-1)*q] with [0 <= q <= 1] is a
    position of the series. *)
Lemma indice_virtual (n : nat) (q : R) :
  (1 <= n)%nat -> 0 <= q <= 1 ->
  let h := INR (n - 1) * q in
  (Z.to_nat (Int_part h) <= n - 1)%nat /\ 0 <= h - IZR (Int_part h) < 1.
Proof.
  intros Hn Hq h.
  destruct (base_Int_part h) as [H1 H2].
  assert (H0 : 0 <= INR (n - 1)) by apply pos_INR.
  assert (Hh : 0 <= h <= INR (n - 1)) by (unfold h; split; nra).
  split; [|lra].
  assert (Hz : (Int_part h <= Z.of_nat (n - 1))%Z).
  { apply le_IZR. rewrite <- INR_IZR_INZ. lra. }
  lia.
Qed.

Lemma media_cota (l : list R) (v : R) :
  l <> [] -> Forall (fun r => r <= v) l -> media_R l <= v.
Proof.
  intros Hne H.
  assert (Hs : suma l <= INR (length l) * v).
  { clear Hne. induction H as [|a l Ha _ IH].
    - simpl; lra.
    - change (length (a :: l)) with (S (length l)). rewrite S_INR.
      cbn [suma fold_right]. fold (suma l). lra. }
  assert (Hn : 0 < INR (length l)).
  { apply lt_0_INR. destruct l; [congruence | simpl; lia]. }
  unfold media_R. apply (Rmult_le_reg_r (INR (length l))); [assumption|].
  unfold Rdiv. rewrite Rmult_assoc, Rinv_l by lra. lra.
Qed.

(** The quantile is a number between two order statistics, the lower of
    which is an observation of the series. *)
Lemma quantile_valor (s : Series) (q : R) :
  s <> [] -> 0 <= q <= 1 ->
  exists v lo, quantile s q = Ok (Fin v)
            /\ In lo s /\ lo <= v.
Proof.
  intros Hne [Hq0 Hq1]. unfold quantile.
  destruct (Rle_dec 0 q) as [_|H]; [|lra].
  destruct (Rle_dec q 1) as [_|H]; [|lra].
  destruct s as [|a t] eqn:E; [congruence|]. rewrite <- E in *. clear E a t.
  assert (Hn : (1 <= length s)%nat) by (destruct s; [congruence | simpl; lia]).
  destruct (indice_virtual (length s) q Hn (conj Hq0 Hq1)) as [Hlo Hg].
  set (h := INR (length s - 1) * q) in *.
  set (lo := Z.to_nat (Int_part h)) in *.
  assert (Hlen : length (ordenar s) = length s)
    by (apply Permutation_length, ordenar_perm).
  assert (Hord : nth lo (ordenar s) 0
                 <= nth (Nat.min (S lo) (length s - 1)) (ordenar s) 0).
  { apply sorted_nth; [apply ordenar_sorted | lia]. }
  eexists; exists (nth lo (ordenar s) 0). split; [reflexivity|]. split.
  - apply (Permutation_in _ (ordenar_perm s)), nth_In. lia.
  - nra.
Qed.

End Quantile.

(** On the series 2%, -3%, 1% the virtual index is 0.1: the VaR lies one
    tenth of the way from -3% to 1%, and only -3% is at or below it. *)
Example var_cvar_ejemplo :
  calcular_var_cvar [2/100; -3/100; 1/100] (95 / 100)
  = Ok (Fin (-26/1000), Fin (-3/100)).
Proof.
  assert (Hi : Int_part (1 / 10) = 0%Z)
    by (symmetry; apply Int_part_spec; simpl; lra).
  unfold calcular_var_cvar, quantile.
  replace (1 - 95 / 100) with (5 / 100) by lra.
  destruct (Rle_dec 0 (5 / 100)) as [_|H]; [|lra].
  destruct (Rle_dec (5 / 100) 1) as [_|H]; [|lra].
  cbn [length Nat.sub].
  replace (INR 2 * (5 / 100)) with (1 / 10) by (simpl; lra).
  rewrite Hi.
  cbn [ordenar fold_right insertar]. decidir.
  cbn [insertar]. decidir. cbn [insertar]. decidir.
  cbn -[Rle_dec INR]. decidir.
  unfold mean, media_R; cbn. f_equal; f_equal; f_equal; lra.
Qed.

Lemma quantile_lineal (s : Series) (q : R) :
  s <> [] -> 0 <= q <= 1 ->
  quantile s q = Ok (Fin (cuantil_lineal (ordenar s) q)).
Proof.
  intros Hne [Hq0 Hq1]. unfold quantile, cuantil_lineal.
  destruct (Rle_dec 0 q) as [_|H]; [|lra].
  destruct (Rle_dec q 1) as [_|H]; [|lra].
  rewrite (Permutation_length (ordenar_perm s)).
  destruct s; [congruence | reflexivity].
Qed.

(** C3, as amended.  On a series with at least one observation,
    [calcular_var_cvar r 0.95] returns as VaR the 0.05 empirical quantile of
    [r], the value interpolated linearly at position 0.05 (n - 1) of the
    sorted observations, and as CVaR the mean of the observations that do
    not exceed it, of which there is at least one.  Taken without rounding,
    that mean is at most the VaR. *)
Theorem var_cvar_orden (returns : Series) :
  returns <> [] ->
  exists ord VaR CVaR,
    Permutation ord returns
    /\ StronglySorted Rle ord
    /\ VaR = cuantil_lineal ord (5 / 100)
    /\ quantile returns (5 / 100) = Ok (Fin VaR)
    /\ calcular_var_cvar returns (95 / 100) = Ok (Fin VaR, Fin CVaR)
    /\ filter (fun r => if Rle_dec r VaR then true else false) returns <> []
    /\ CVaR
       = media_R (filter (fun r => if Rle_dec r VaR then true else false)
                    returns)
    /\ mean (filter (fun r => if Rle_dec r VaR then true else false) returns)
       = Fin CVaR
    /\ CVaR <= VaR.
Proof.
  intros Hne.
  destruct (quantile_valor returns (5 / 100) Hne ltac:(lra))
    as (v & lo & Hq & Hin & Hlo).
  assert (Hv : v = cuantil_lineal (ordenar returns) (5 / 100)).
  { rewrite (quantile_lineal returns (5 / 100) Hne ltac:(lra)) in Hq.
    now injection Hq. }
  set (cola_izq := filter (fun r => if Rle_dec r v then true else false) returns).
  assert (Hmem : In lo cola_izq).
  { apply filter_In; split; [assumption|].
    destruct (Rle_dec lo v); [reflexivity | contradiction]. }
  assert (Hcota : Forall (fun r => r <= v) cola_izq).
  { apply Forall_forall; intros r Hr. apply filter_In in Hr as [_ Hr].
    destruct (Rle_dec r v); [assumption | discriminate]. }
  assert (Hno : cola_izq <> []) by (intros E; rewrite E in Hmem; exact Hmem).
  exists (ordenar returns), v, (media_R cola_izq).
  assert (Hmean : mean cola_izq = Fin (media_R cola_izq))
    by (unfold mean; destruct cola_izq; [congruence | reflexivity]).
  split; [apply ordenar_perm|]. split; [apply ordenar_sorted|].
  split; [exact Hv|]. split; [exact Hq|]. split.
  { unfold calcular_var_cvar.
    replace (1 - 95 / 100) with (5 / 100) by lra.
    rewrite Hq. cbn [bind fle fge]. fold cola_izq. now rewrite Hmean. }
  split; [exact Hno|]. split; [reflexivity|]. split; [exact Hmean|].
  now apply media_cota.
Qed.

Lemma var_cvar_orden_witness :
  exists ord VaR CVaR,
    Permutation ord [2/100; -3/100; 1/100]
    /\ StronglySorted Rle ord
    /\ VaR = cuantil_lineal ord (5 / 100)
    /\ quantile [2/100; -3/100; 1/100] (5 / 100) = Ok (Fin VaR)
    /\ calcular_var_cvar [2/100; -3/100; 1/100] (95 / 100)
       = Ok (Fin VaR, Fin CVaR)
    /\ filter (fun r => if Rle_dec r VaR then true else false)
         [2/100; -3/100; 1/100] <> []
    /\ CVaR
       = media_R (filter (fun r => if Rle_dec r VaR then true else false)
                    [2/100; -3/100; 1/100])
    /\ mean (filter (fun r => if Rle_dec r VaR then true else false)
               [2/100; -3/100; 1/100])
       = Fin CVaR
    /\ CVaR <= VaR.
Proof.
  apply (var_cvar_orden [2/100; -3/100; 1/100]). discriminate.
Defined.

(** ** Runs over binary64 *)

Module Binary64Runs.

Import Floats.
Local Open Scope float_scope.
#[local] Set Warnings "-inexact-float".

(** C3 as stated fails on the series 0.1, 0.1, 0.1, 5.0: the VaR is 0.1,
    the three observations at 0.1 make the tail, and their mean as the
    machine computes it, 0.30000000000000004 / 3, is
    0.10000000000000002, above the VaR. *)
Lemma var_cvar_empate :
  Binary64.calcular_var_cvar [0.1; 0.1; 0.1; 5] 0.95
  = Ok (0.1, 0.10000000000000002)
  /\ PrimFloat.leb 0.10000000000000002 0.1 = false
  /\ PrimFloat.ltb 0.1 0.10000000000000002 = true.
Proof. repeat split; vm_compute; reflexivity. Qed.

(** The prices 100, 110, 99 run through the machine floats come back as
    110.00000000000001 and 99.000000000000014: equal to the prices up to
    rounding, not digit for digit. *)
Lemma reconstruccion_redondeada :
  exists returns cumulative normalized,
    Binary64.calcular_metricas [100; 110; 99]
    = Ok (returns, cumulative, normalized)
    /\ Binary64.reconstruir 100 cumulative
       = [110.00000000000001; 99.000000000000014]
    /\ PrimFloat.ltb (110.00000000000001 - 110) 0.0000000000001 = true
    /\ PrimFloat.ltb (99.000000000000014 - 99) 0.0000000000001 = true.
Proof.
  do 3 eexists. split; [vm_compute; reflexivity|].
  repeat split; vm_compute; reflexivity.
Qed.

End Binary64Runs.

(** ** What the optimizer asks of the solver *)

Section Solver.

Variable minimize : minimizador.
Variable returns : DataFrame.
Variable tol : R.

Let n := length (columns returns).

Lemma pesos_iniciales_factible : (1 <= n)%nat -> factible 0 (pesos_iniciales n).
Proof.
  intros Hn. assert (H0 : 0 < INR n) by (apply lt_0_INR; lia).
  assert (H1 : 1 <= INR n) by (apply (le_INR 1); lia).
  unfold factible, pesos_iniciales. split.
  - apply Forall_forall; intros p Hp. apply repeat_spec in Hp; subst p.
    split.
    + apply Rlt_le, Rdiv_lt_0_compat; lra.
    + apply (Rmult_le_reg_r (INR n)); [assumption|].
      unfold Rdiv. rewrite Rmult_assoc, Rinv_l by lra. lra.
  - rewrite suma_repeat.
    replace (INR n * (1 / INR n) - 1) with 0 by (field; lra).
    rewrite Rabs_R0; lra.
Qed.

Lemma cumple_limites (w : list R) (k : nat) :
  Forall2 (fun p b => fst b <= p <= snd b) w (limites k) ->
  Forall (fun p => 0 <= p <= 1) w.
Proof.
  unfold limites. revert w; induction k as [|k IH]; intros w H; simpl in H;
    inversion H; subst; constructor; auto.
Qed.

Lemma cumple_factible (c : llamada) (w : list R) :
  bounds c = limites n -> incl restricciones (constraints c) ->
  cumple tol c w -> factible tol w.
Proof.
  intros Hb Hc [H1 H2]. rewrite Hb in H1. split.
  - now apply (cumple_limites w n).
  - destruct (H2 (mkRestriccion Eq_r (fun pesos => Ok (Fin (suma pesos - 1)))))
      as (v & Hv & Htol); [apply Hc; now left | reflexivity |].
    cbn [fun_r] in Hv. injection Hv as <-. exact Htol.
Qed.

(** Whenever the solver hands back points that meet the bounds and the
    equality constraint it was given, every array the entry point returns is
    a weight vector.  The entry point itself never looks at [success]. *)
Lemma optimizar_portafolio_factible (risk_free_rate : R) :
  (forall c r, minimize c = Ok r -> cumple tol c (x r)) ->
  forall target_return,
    match optimizar_portafolio minimize returns target_return risk_free_rate with
    | Ok (Par v s) => factible tol v /\ factible tol s
    | Ok (Unico t) => factible tol t
    | Raise _ => True
    end.
Proof.
  intros H [target|]; unfold optimizar_portafolio.
  - destruct (minimize (llamada_target returns target)) as [rt|e] eqn:Et;
      [|exact I]. cbn [bind].
    eapply cumple_factible; [| |apply (H _ _ Et)];
      [reflexivity | apply incl_appl, incl_refl].
  - destruct (minimize (llamada_volatilidad returns)) as [rv|e] eqn:Ev;
      [|exact I]. cbn [bind].
    destruct (minimize (llamada_sharpe returns risk_free_rate)) as [rs|e] eqn:Es;
      [|exact I]. cbn [bind].
    split; (eapply cumple_factible; [| |eapply H; eassumption]);
      try reflexivity; apply incl_refl.
Qed.

End Solver.

(** * Further properties *)

(** ** Sharpe ratio: few observations and the regular case *)

Lemma mean_forma (l : list R) : mean l = NaN \/ exists m, mean l = Fin m.
Proof. destruct l; [now left | right; eexists; reflexivity]. Qed.

Lemma fdiv_nan_r (a : fl) : fdiv a NaN = NaN.
Proof. destruct a; reflexivity. Qed.

(** X2.  With fewer than two observations [calcular_sharpe_ratio] is
    undefined; nothing is raised. *)
Theorem sharpe_pocas_observaciones (returns : Series) (risk_free_rate : R) :
  (length returns <= 1)%nat ->
  calcular_sharpe_ratio returns risk_free_rate = NaN.
Proof.
  intros Hn. unfold calcular_sharpe_ratio, std, var.
  rewrite length_map, fsqrt_252.
  destruct (Nat.leb_spec (length returns) 1) as [_|H]; [|lia].
  cbn [fsqrt]. apply fdiv_nan_r.
Qed.

Lemma sharpe_pocas_observaciones_witness :
  calcular_sharpe_ratio [5/100] (2/100) = NaN.
Proof. apply (sharpe_pocas_observaciones [5/100] (2/100)). simpl; lia. Defined.

(** X3.  With at least two observations whose excess returns are not all
    equal, [calcular_sharpe_ratio] is the finite number sqrt(252) * mean /
    standard deviation of the excess returns, the deviation taken with
    n - 1. *)
Theorem sharpe_valor (returns : Series) (risk_free_rate : R) :
  (2 <= length returns)%nat ->
  suma_cuadrados (map (fun r => r - risk_free_rate / 252) returns) <> 0 ->
  calcular_sharpe_ratio returns risk_free_rate
  = Fin (sqrt 252 * media_R (map (fun r => r - risk_free_rate / 252) returns)
         / sqrt (suma_cuadrados (map (fun r => r - risk_free_rate / 252) returns)
                 / (INR (length returns) - 1))).
Proof.
  intros Hn Hs. rewrite (sharpe_formula returns risk_free_rate Hn Hs).
  cbv zeta. rewrite length_map, minus_INR by lia. reflexivity.
Qed.

Lemma sharpe_valor_witness :
  calcular_sharpe_ratio [0; 1] 0
  = Fin (sqrt 252 * media_R (map (fun r => r - 0 / 252) [0; 1])
         / sqrt (suma_cuadrados (map (fun r => r - 0 / 252) [0; 1])
                 / (INR (length [0; 1]) - 1))).
Proof.
  apply (sharpe_valor [0; 1] 0).
  - simpl; lia.
  - unfold suma_cuadrados, media_R; simpl; lra.
Defined.

(** ** Sortino ratio *)

Section Sortino.

Lemma suma_cuadrados_crudos_pos (l : list R) :
  l <> [] -> Forall (fun r => r <> 0) l -> 0 < suma (map (fun r => r ^ 2) l).
Proof.
  intros Hne H. unfold suma. induction H as [|a l Ha Hl IH]; [congruence|].
  cbn [map fold_right].
  assert (0 < a ^ 2).
  { pose proof (pow2_ge_0 a). pose proof (pow_nonzero a 2 Ha). lra. }
  destruct l as [|b l]; [simpl; lra|].
  specialize (IH ltac:(discriminate)). lra.
Qed.

Lemma filter_vacio {A : Type} (f : A -> bool) (l : list A) :
  Forall (fun a => f a = false) l -> filter f l = [].
Proof.
  induction 1 as [|a l Ha _ IH]; simpl; [reflexivity|].
  now rewrite Ha.
Qed.

End Sortino.

(** X4.  [calcular_sortino_ratio] never returns an infinity: the result is
    undefined or a finite number.  It is undefined whenever no excess return
    lies strictly below the target, an empty series included. *)
Theorem sortino_sin_infinitos (returns : Series) (risk_free_rate target_return : R) :
  (calcular_sortino_ratio returns risk_free_rate target_return = NaN
   \/ exists v, calcular_sortino_ratio returns risk_free_rate target_return = Fin v)
  /\ (Forall (fun r => target_return <= r - risk_free_rate / 252) returns ->
      calcular_sortino_ratio returns risk_free_rate target_return = NaN).
Proof.
  unfold calcular_sortino_ratio. rewrite fsqrt_252. split.
  - set (dd := fsqrt (mean _)).
    assert (Hdd : dd = NaN \/ exists d, dd = Fin d).
    { unfold dd. destruct (mean_forma (map (fun r => r ^ 2)
        (filter (fun r => if Rlt_dec r target_return then true else false)
           (map (fun r => r - risk_free_rate / 252) returns)))) as [E|[m E]];
        rewrite E; cbn [fsqrt]; [now left|].
      destruct (Rlt_dec m 0); [now left | right; eexists; reflexivity]. }
    destruct Hdd as [E|[d E]]; rewrite E.
    + left. cbn [fne0]. apply fdiv_nan_r.
    + cbn [fne0]. destruct (Req_dec_T d 0) as [_|Hd]; [now left|].
      destruct (mean_forma (map (fun r => r - risk_free_rate / 252) returns))
        as [Em|[m Em]]; rewrite Em; cbn [fmul fdiv]; [now left|].
      destruct (Req_dec_T d 0); [contradiction|].
      right; eexists; reflexivity.
  - intros H.
    rewrite (filter_vacio _ (map (fun r => r - risk_free_rate / 252) returns)).
    + cbn [map mean fsqrt fne0]. apply fdiv_nan_r.
    + apply Forall_map. eapply Forall_impl; [|exact H].
      intros r Hr; cbv beta in *. destruct (Rlt_dec _ _); [lra | reflexivity].
Qed.

Lemma sortino_sin_infinitos_witness :
  (calcular_sortino_ratio [1/100; 2/100] 0 0 = NaN
   \/ exists v, calcular_sortino_ratio [1/100; 2/100] 0 0 = Fin v)
  /\ calcular_sortino_ratio [1/100; 2/100] 0 0 = NaN.
Proof.
  destruct (sortino_sin_infinitos [1/100; 2/100] 0 0) as [H1 H2].
  split; [exact H1|]. apply H2. repeat constructor; lra.
Defined.

(** X5.  With a target that is not positive and at least one excess return
    strictly below it, [calcular_sortino_ratio] is the finite number
    sqrt(252) * mean of the excess returns / root mean square of the excess
    returns below the target, and that root mean square is positive. *)
Theorem sortino_valor (returns : Series) (risk_free_rate target_return : R) :
  target_return <= 0 ->
  Exists (fun r => r - risk_free_rate / 252 < target_return) returns ->
  let excess := map (fun r => r - risk_free_rate / 252) returns in
  let downside :=
    filter (fun r => if Rlt_dec r target_return then true else false) excess in
  0 < sqrt (media_R (map (fun r => r ^ 2) downside))
  /\ calcular_sortino_ratio returns risk_free_rate target_return
     = Fin (sqrt 252 * media_R excess
            / sqrt (media_R (map (fun r => r ^ 2) downside))).
Proof.
  intros Ht Hex excess downside.
  assert (Hin : exists r, In r downside).
  { apply Exists_exists in Hex as (r & Hr & Hlt).
    exists (r - risk_free_rate / 252). apply filter_In. split.
    - unfold excess.
      exact (in_map (fun r0 => r0 - risk_free_rate / 252) returns r Hr).
    - destruct (Rlt_dec _ _); [reflexivity | contradiction]. }
  assert (Hne : downside <> []) by (destruct Hin as [r Hr]; intros E; rewrite E in Hr; exact Hr).
  assert (Hnz : Forall (fun r => r <> 0) downside).
  { apply Forall_forall. intros r Hr. apply filter_In in Hr as [_ Hr].
    destruct (Rlt_dec r target_return); [lra | discriminate]. }
  assert (Hexc : excess <> []).
  { intros E. unfold downside in Hne. rewrite E in Hne. now apply Hne. }
  pose proof (suma_cuadrados_crudos_pos downside Hne Hnz) as Hpos.
  assert (Hlen : 0 < INR (length (map (fun r => r ^ 2) downside))).
  { rewrite length_map. apply lt_0_INR.
    destruct downside; [congruence | simpl; lia]. }
  assert (Hm : 0 < media_R (map (fun r => r ^ 2) downside))
    by (unfold media_R; apply Rdiv_lt_0_compat; assumption).
  pose proof (sqrt_lt_R0 _ Hm) as Hsq.
  split; [exact Hsq|].
  unfold calcular_sortino_ratio. fold excess. fold downside.
  rewrite fsqrt_252.
  assert (E1 : mean (map (fun r => r ^ 2) downside)
               = Fin (media_R (map (fun r => r ^ 2) downside))).
  { destruct downside; [congruence | reflexivity]. }
  assert (E2 : mean excess = Fin (media_R excess)).
  { destruct excess; [congruence | reflexivity]. }
  rewrite E1, E2. cbn [fsqrt].
  destruct (Rlt_dec (media_R (map (fun r => r ^ 2) downside)) 0); [lra|].
  cbn [fne0 fmul fdiv].
  destruct (Req_dec_T (sqrt (media_R (map (fun r => r ^ 2) downside))) 0);
    [lra | reflexivity].
Qed.

Lemma sortino_valor_witness :
  0 < sqrt (media_R (map (fun r => r ^ 2)
              (filter (fun r => if Rlt_dec r 0 then true else false)
                 (map (fun r => r - 0 / 252) [-1/100; 2/100]))))
  /\ calcular_sortino_ratio [-1/100; 2/100] 0 0
     = Fin (sqrt 252 * media_R (map (fun r => r - 0 / 252) [-1/100; 2/100])
            / sqrt (media_R (map (fun r => r ^ 2)
                      (filter (fun r => if Rlt_dec r 0 then true else false)
                         (map (fun r => r - 0 / 252) [-1/100; 2/100]))))).
Proof.
  apply (sortino_valor [-1/100; 2/100] 0 0).
  - lra.
  - constructor. lra.
Defined.

(** ** Beta: guards and linearity *)

(** X6.  [calcular_beta] fails when the two series differ in length.  On
    series of equal length it never raises and never returns an infinity,
    the division being guarded; with fewer than two observations the result
    is undefined. *)
Theorem beta_indefinida (asset_returns market_returns : Series) :
  (length asset_returns <> length market_returns ->
   calcular_beta asset_returns market_returns = Raise ValueError)
  /\ (length asset_returns = length market_returns ->
      (calcular_beta asset_returns market_returns = Ok NaN
       \/ exists b, calcular_beta asset_returns market_returns = Ok (Fin b))
      /\ ((length market_returns <= 1)%nat ->
          calcular_beta asset_returns market_returns = Ok NaN)).
Proof.
  split.
  - intros H. unfold calcular_beta, Numpy.cov01.
    destruct (Nat.eqb_spec (length asset_returns) (length market_returns));
      [contradiction | reflexivity].
  - intros Hlen. unfold calcular_beta, Numpy.cov01.
    rewrite Hlen, Nat.eqb_refl.
    destruct (Nat.leb_spec (length market_returns) 1) as [Hle|Hgt]; cbn [bind].
    + assert (E : forall v, (if fne0 v then fdiv NaN v else NaN) = NaN)
        by (intros v; destruct (fne0 v); reflexivity).
      rewrite E. split; [now left | reflexivity].
    + split; [|intros H; lia].
      unfold Numpy.var. destruct market_returns as [|m0 mt]; [simpl in Hgt; lia|].
      cbn [fne0 fdiv].
      destruct (Req_dec_T (suma_cuadrados (m0 :: mt) / INR (length (m0 :: mt))) 0);
        [now left | right; eexists; reflexivity].
Qed.

Lemma beta_indefinida_witness :
  calcular_beta [1/100] [1/100; 2/100] = Raise ValueError
  /\ ((calcular_beta [1/100] [3/100] = Ok NaN
       \/ exists b, calcular_beta [1/100] [3/100] = Ok (Fin b))
      /\ ((length [3/100] <= 1)%nat -> calcular_beta [1/100] [3/100] = Ok NaN)).
Proof.
  split.
  - apply (proj1 (beta_indefinida [1/100] [1/100; 2/100])). simpl; lia.
  - apply (proj2 (beta_indefinida [1/100] [3/100])). reflexivity.
Defined.

Section BetaLineal.

Variables alpha beta : R.

Let mezcla (a b : Series) : Series :=
  map (fun p => alpha * fst p + beta * snd p) (combine a b).

Lemma length_mezcla (a b : Series) :
  length a = length b -> length (mezcla a b) = length a.
Proof.
  intros H. unfold mezcla. rewrite length_map, length_combine, H.
  apply Nat.min_id.
Qed.

Lemma suma_mezcla (a : Series) : forall b, length a = length b ->
  suma (mezcla a b) = alpha * suma a + beta * suma b.
Proof.
  unfold mezcla, suma.
  induction a as [|u a IH]; intros [|v b] H; try discriminate.
  - simpl; lra.
  - cbn [combine map fold_right fst snd]. rewrite IH by (simpl in H; lia).
    ring.
Qed.

Lemma media_mezcla (a b : Series) :
  length a = length b -> a <> [] ->
  media_R (mezcla a b) = alpha * media_R a + beta * media_R b.
Proof.
  intros H Hne. unfold media_R.
  rewrite suma_mezcla, length_mezcla, <- H by assumption.
  field. apply not_0_INR. destruct a; [congruence | discriminate].
Qed.

Lemma productos_mezcla (ma mb mu : R) (a : Series) : forall b m,
  length a = length b -> length a = length m ->
  suma (map (fun p => (fst p - (alpha * ma + beta * mb)) * (snd p - mu))
          (combine (mezcla a b) m))
  = alpha * suma (map (fun p => (fst p - ma) * (snd p - mu)) (combine a m))
    + beta * suma (map (fun p => (fst p - mb) * (snd p - mu)) (combine b m)).
Proof.
  unfold mezcla, suma.
  induction a as [|u a IH]; intros [|v b] [|w m] Hb Hm; try discriminate.
  - simpl; lra.
  - cbn [combine map fold_right fst snd].
    rewrite IH by (simpl in Hb, Hm; lia). ring.
Qed.

Lemma suma_productos_mezcla (a b m : Series) :
  length a = length b -> length a = length m -> a <> [] ->
  suma_productos (mezcla a b) m
  = alpha * suma_productos a m + beta * suma_productos b m.
Proof.
  intros Hb Hm Hne. unfold suma_productos.
  rewrite media_mezcla by assumption. now apply productos_mezcla.
Qed.

(** X7.  Against a market of at least two observations and non-zero
    variance, [calcular_beta] is linear in the asset: the beta of the
    combination [alpha * a + beta * b], taken date by date, is [alpha] times
    the beta of [a] plus [beta] times the beta of [b]. *)
Theorem beta_lineal (a b m : Series) :
  length a = length m -> length b = length m ->
  (2 <= length m)%nat -> Numpy.var m <> Fin 0 ->
  exists ba bb,
    calcular_beta a m = Ok (Fin ba)
    /\ calcular_beta b m = Ok (Fin bb)
    /\ calcular_beta
         (map (fun p => alpha * fst p + beta * snd p) (combine a b)) m
       = Ok (Fin (alpha * ba + beta * bb)).
Proof.
  intros Ha Hb Hn Hv.
  destruct (np_var_no_nula m ltac:(lia) Hv) as [_ Hs].
  assert (Hne : a <> []) by (intros E; rewrite E in Ha; simpl in Ha; lia).
  assert (H2 : 2 <= INR (length m)) by (apply (le_INR 2); lia).
  do 2 eexists.
  split; [apply calcular_beta_valor; assumption|].
  split; [apply calcular_beta_valor; assumption|].
  fold (mezcla a b).
  rewrite calcular_beta_valor; try assumption.
  - rewrite suma_productos_mezcla by congruence.
    do 2 f_equal. field. repeat split; lra.
  - rewrite length_mezcla; congruence.
Qed.

End BetaLineal.

Lemma beta_lineal_witness :
  exists ba bb,
    calcular_beta [1; 0] [0; 1] = Ok (Fin ba)
    /\ calcular_beta [0; 2] [0; 1] = Ok (Fin bb)
    /\ calcular_beta
         (map (fun p => (1/2) * fst p + (1/2) * snd p)
            (combine [1; 0] [0; 2])) [0; 1]
       = Ok (Fin ((1/2) * ba + (1/2) * bb)).
Proof.
  apply (beta_lineal (1/2) (1/2) [1; 0] [0; 2] [0; 1]).
  - reflexivity.
  - reflexivity.
  - simpl; lia.
  - unfold Numpy.var, suma_cuadrados, media_R; simpl.
    intros H; injection H; lra.
Defined.

(** ** Annualised return and volatility *)

Lemma potencia_252_no_negativa (y : R) : 0 <= y ^ 252.
Proof.
  replace 252%nat with (2 * 126)%nat by reflexivity.
  rewrite pow_mult. apply pow_le, pow2_ge_0.
Qed.

Lemma potencia_252_acotada (y : R) : -2 <= y <= 2 -> y ^ 252 <= 2 ^ 252.
Proof.
  intros Hy.
  replace 252%nat with (2 * 126)%nat by reflexivity.
  rewrite !pow_mult. apply pow_incr. split; [apply pow2_ge_0|].
  simpl; nra.
Qed.

(** X8.  [calcular_rendimiento_anualizado] is undefined on an empty series.
    On a series with observations whose mean lies between -3 and 1 it is
    the number (1 + mean)^252 - 1, with (1 + mean)^252 at most 2^252; that
    number is never below -1, also for a mean below -1, it is not negative
    when the mean is not negative, and not positive when the mean lies
    between -1 and 0. *)
Theorem rendimiento_anualizado_cotas (returns : Series) :
  (returns = [] -> calcular_rendimiento_anualizado returns = NaN)
  /\ (returns <> [] -> -3 <= media_R returns <= 1 ->
      calcular_rendimiento_anualizado returns
      = Fin ((1 + media_R returns) ^ 252 - 1)
      /\ (1 + media_R returns) ^ 252 <= 2 ^ 252
      /\ -1 <= (1 + media_R returns) ^ 252 - 1
      /\ (0 <= media_R returns -> 0 <= (1 + media_R returns) ^ 252 - 1)
      /\ (-1 <= media_R returns <= 0 ->
          (1 + media_R returns) ^ 252 - 1 <= 0)).
Proof.
  split.
  - intros ->. reflexivity.
  - intros Hne Hm. split; [now apply rendimiento_anualizado_finito|].
    pose proof (potencia_252_no_negativa (1 + media_R returns)) as H0.
    split; [apply potencia_252_acotada; lra|].
    split; [lra|]. split.
    + intros Hpos.
      pose proof (pow_R1_Rle (1 + media_R returns) 252 ltac:(lra)). lra.
    + intros [Hlo Hhi].
      pose proof (pow_incr (1 + media_R returns) 1 252 ltac:(lra)) as H1.
      rewrite pow1 in H1. lra.
Qed.

Lemma rendimiento_anualizado_cotas_witness :
  calcular_rendimiento_anualizado [] = NaN
  /\ (calcular_rendimiento_anualizado [1/100; -1/100]
      = Fin ((1 + media_R [1/100; -1/100]) ^ 252 - 1)
      /\ (1 + media_R [1/100; -1/100]) ^ 252 <= 2 ^ 252
      /\ -1 <= (1 + media_R [1/100; -1/100]) ^ 252 - 1
      /\ (0 <= media_R [1/100; -1/100] ->
          0 <= (1 + media_R [1/100; -1/100]) ^ 252 - 1)
      /\ (-1 <= media_R [1/100; -1/100] <= 0 ->
          (1 + media_R [1/100; -1/100]) ^ 252 - 1 <= 0)).
Proof.
  split.
  - apply (proj1 (rendimiento_anualizado_cotas [])). reflexivity.
  - apply (proj2 (rendimiento_anualizado_cotas [1/100; -1/100])).
    + discriminate.
    + unfold media_R; simpl; lra.
Defined.

(** X9.  [calcular_volatilidad_anualizada] is undefined with fewer than two
    observations; otherwise it is the number sqrt(252) times the standard
    deviation taken with n - 1, which is never negative. *)
Theorem volatilidad_anualizada_cotas (returns : Series) :
  ((length returns <= 1)%nat -> calcular_volatilidad_anualizada returns = NaN)
  /\ ((2 <= length returns)%nat ->
      calcular_volatilidad_anualizada returns
      = Fin (sqrt (suma_cuadrados returns / (INR (length returns) - 1))
             * sqrt 252)
      /\ 0 <= sqrt (suma_cuadrados returns / (INR (length returns) - 1))
              * sqrt 252).
Proof.
  unfold calcular_volatilidad_anualizada. split.
  - intros H. unfold std, var. rewrite fsqrt_252.
    destruct (Nat.leb_spec (length returns) 1); [reflexivity | lia].
  - intros H. rewrite (std_valor returns H), fsqrt_252. split; [reflexivity|].
    apply Rmult_le_pos; apply sqrt_pos.
Qed.

Lemma volatilidad_anualizada_cotas_witness :
  calcular_volatilidad_anualizada [1/100] = NaN
  /\ (calcular_volatilidad_anualizada [1/100; 3/100]
      = Fin (sqrt (suma_cuadrados [1/100; 3/100]
                   / (INR (length [1/100; 3/100]) - 1)) * sqrt 252)
      /\ 0 <= sqrt (suma_cuadrados [1/100; 3/100]
                    / (INR (length [1/100; 3/100]) - 1)) * sqrt 252).
Proof.
  split.
  - apply (proj1 (volatilidad_anualizada_cotas [1/100])). simpl; lia.
  - apply (proj2 (volatilidad_anualizada_cotas [1/100; 3/100])). simpl; lia.
Defined.

(** ** The page's check and the aggregator *)

Lemma suma_ponderada_fila (df : DataFrame) (pesos : list R) :
  length pesos = length (columns df) -> bien_formado df ->
  exists s, suma_ponderada df pesos = Ok s
            /\ length s = index_len df
            /\ forall i, nth i s 0 = fila_ponderada df pesos i.
Proof.
  intros Hlen Hwf. rewrite suma_ponderada_ok by assumption.
  eexists; split; [reflexivity|].
  unfold sum_axis1; cbn [index_len columns].
  pose proof (columnas_escaladas (index_len df) (columns df) pesos Hwf) as Hs.
  split; [now apply fold_sumar_filas_length|].
  intros i. rewrite fold_sumar_filas_nth by assumption.
  unfold fila_ponderada. rewrite map_map. f_equal.
  apply map_ext; intros [c w]; cbn [fst snd]. apply nth_escalada.
Qed.

(** X11.  Whenever the page goes on to the analysis, the weights are as
    many as the symbol columns, so the portfolio returns are computed
    without error, one per date. *)
Theorem pagina_portafolio_valida (df : DataFrame) (pesos : list R) :
  bien_formado df ->
  forall r, pagina_portafolio df pesos = Analisis r ->
    length pesos = length (columns df)
    /\ exists s, r = Ok s /\ length s = index_len df.
Proof.
  intros Hwf r. unfold pagina_portafolio.
  destruct (Nat.eqb_spec (length (columns df)) (length pesos)) as [E|E];
    cbn [negb orb]; [|discriminate].
  destruct (Rlt_dec (1 / 1000000) (Rabs (suma pesos - 1))); [discriminate|].
  intros Hr. injection Hr as <-. split; [now symmetry|].
  unfold calcular_rendimientos_portafolio.
  destruct (suma_ponderada_fila df pesos (eq_sym E) Hwf) as (s & Es & Hl & _).
  exists s. now split.
Qed.

Lemma pagina_portafolio_valida_witness :
  length [1/2; 1/2] = length (columns escenario_A)
  /\ exists s, calcular_rendimientos_portafolio escenario_A [1/2; 1/2] = Ok s
               /\ length s = index_len escenario_A.
Proof.
  apply (pagina_portafolio_valida escenario_A [1/2; 1/2]).
  - repeat constructor.
  - unfold pagina_portafolio. cbn [columns escenario_A length Nat.eqb negb orb].
    destruct (Rlt_dec (1 / 1000000) (Rabs (suma [1/2; 1/2] - 1))) as [H|_];
      [|reflexivity].
    exfalso. replace (suma [1/2; 1/2] - 1) with 0 in H by (simpl; lra).
    rewrite Rabs_R0 in H. lra.
Defined.

(** ** The start vector of the solves *)

Lemma limites_inicio (n : nat) :
  (1 <= n)%nat ->
  Forall2 (fun p b => fst b <= p <= snd b) (pesos_iniciales n) (limites n).
Proof.
  intros Hn. unfold pesos_iniciales, limites.
  assert (H0 : 0 < INR n) by (apply lt_0_INR; lia).
  assert (H1 : 1 <= INR n) by (apply (le_INR 1); lia).
  assert (Hb : 0 <= 1 / INR n <= 1).
  { split; [apply Rlt_le, Rdiv_lt_0_compat; lra|].
    apply (Rmult_le_reg_r (INR n)); [assumption|].
    unfold Rdiv. rewrite Rmult_assoc, Rinv_l by lra. lra. }
  generalize (1 / INR n) Hb. clear. intros p Hp.
  induction n as [|n IH]; simpl; constructor; [exact Hp | exact IH].
Qed.

Lemma inicio_cumple (returns : DataFrame) (c : llamada) :
  (1 <= length (columns returns))%nat ->
  x0 c = pesos_iniciales (length (columns returns)) ->
  bounds c = limites (length (columns returns)) ->
  (forall r, In r (constraints c) -> tipo r = Eq_r -> In r restricciones) ->
  cumple 0 c (x0 c).
Proof.
  intros Hn Hx Hb Hc.
  destruct (pesos_iniciales_factible returns Hn) as [_ Hs].
  split.
  - rewrite Hx, Hb. now apply limites_inicio.
  - intros r Hr Ht. specialize (Hc r Hr Ht).
    destruct Hc as [<-|[]]. cbn [fun_r].
    eexists; split; [reflexivity|]. now rewrite Hx.
Qed.

Lemma restricciones_target (returns : DataFrame) (target : R) (r : restriccion) :
  In r (restricciones ++ [restriccion_rendimiento returns target]) ->
  tipo r = Eq_r -> In r restricciones.
Proof.
  intros Hr Ht. apply in_app_or in Hr as [H|[<-|[]]]; [exact H|].
  discriminate.
Qed.

Lemma factible_tolerancia (tol : R) (w : list R) :
  0 <= tol -> factible 0 w -> factible tol w.
Proof. intros Ht [H1 H2]. split; [exact H1 | lra]. Qed.

Lemma cumple_tolerancia (tol : R) (c : llamada) (w : list R) :
  0 <= tol -> cumple 0 c w -> cumple tol c w.
Proof.
  intros Ht [H1 H2]. split; [exact H1|].
  intros r Hr Hti. destruct (H2 r Hr Hti) as (v & Hv & Hle).
  exists v. split; [exact Hv | lra].
Qed.

(** X12.  With at least one asset column, the start vector of each of the
    three solves has every entry equal to 1/n, is passed with the bounds
    (0, 1) on every entry, lies within them and meets the sum constraint
    within 1e-6.  With no asset column the start vector is empty and misses
    the sum constraint by 1. *)
Theorem inicio_uniforme_factible (returns : DataFrame)
    (risk_free_rate target_return : R) :
  ((1 <= length (columns returns))%nat ->
     forall c,
       In c [llamada_volatilidad returns;
             llamada_sharpe returns risk_free_rate;
             llamada_target returns target_return] ->
       x0 c = repeat (1 / INR (length (columns returns)))
                (length (columns returns))
       /\ bounds c = repeat (0, 1) (length (columns returns))
       /\ cumple (1 / 1000000) c (x0 c)
       /\ factible (1 / 1000000) (x0 c))
  /\ (length (columns returns) = 0%nat ->
      x0 (llamada_target returns target_return) = []
      /\ forall tol, tol < 1 ->
           ~ factible tol (x0 (llamada_target returns target_return))).
Proof.
  split.
  - intros Hn c Hc.
    assert (Hf : factible (1 / 1000000)
                   (pesos_iniciales (length (columns returns))))
      by (apply factible_tolerancia; [lra|];
          now apply pesos_iniciales_factible).
    destruct Hc as [<-|[<-|[<-|[]]]]; (split; [reflexivity|]);
      (split; [reflexivity|]); (split; [|exact Hf]);
      (apply cumple_tolerancia; [lra|]);
      apply (inicio_cumple returns); try reflexivity; try assumption.
    + intros r Hr _; exact Hr.
    + intros r Hr _; exact Hr.
    + apply restricciones_target.
  - intros E. unfold llamada_target; cbn [x0]. rewrite E.
    split; [reflexivity|].
    intros tol Htol [_ H]. cbn in H.
    replace (0 - 1) with (- (1)) in H by lra.
    rewrite Rabs_Ropp, Rabs_R1 in H. lra.
Qed.

Lemma inicio_uniforme_factible_witness :
  (forall c,
     In c [llamada_volatilidad escenario_A;
           llamada_sharpe escenario_A (2/100);
           llamada_target escenario_A (1/10)] ->
     x0 c = repeat (1 / INR (length (columns escenario_A)))
              (length (columns escenario_A))
     /\ bounds c = repeat (0, 1) (length (columns escenario_A))
     /\ cumple (1 / 1000000) c (x0 c)
     /\ factible (1 / 1000000) (x0 c))
  /\ (x0 (llamada_target (mkDataFrame 3 []) (1/10)) = []
      /\ forall tol, tol < 1 ->
           ~ factible tol (x0 (llamada_target (mkDataFrame 3 []) (1/10)))).
Proof.
  split.
  - apply (proj1 (inicio_uniforme_factible escenario_A (2/100) (1/10))).
    simpl; lia.
  - apply (proj2 (inicio_uniforme_factible (mkDataFrame 3 []) 0 (1/10))).
    reflexivity.
Defined.

(** ** Drawdown *)

Section Drawdown.

Lemma maximo_desde_ge (s : list R) : forall m, m <= maximo_desde m s.
Proof.
  unfold maximo_desde. induction s as [|a s IH]; intros m; simpl; [lra|].
  pose proof (IH (Rmax m a)). pose proof (Rmax_l m a). lra.
Qed.

Lemma maximo_desde_cota (s : list R) : forall m,
  Forall (fun r => r <= maximo_desde m s) s.
Proof.
  induction s as [|a s IH]; intros m; constructor.
  - change (maximo_desde m (a :: s)) with (maximo_desde (Rmax m a) s).
    pose proof (maximo_desde_ge s (Rmax m a)). pose proof (Rmax_r m a). lra.
  - apply IH.
Qed.

Lemma maximo_desde_in (s : list R) : forall m, In (maximo_desde m s) (m :: s).
Proof.
  induction s as [|a s IH]; intros m; [now left|].
  change (maximo_desde m (a :: s)) with (maximo_desde (Rmax m a) s).
  destruct (IH (Rmax m a)) as [E|H].
  - rewrite <- E. apply Rmax_case; [now left | right; now left].
  - right; now right.
Qed.

Lemma last_cons {A : Type} (a d : A) (l : list A) : last (a :: l) d = last l a.
Proof.
  revert a d; induction l as [|b l IH]; intros a d; [reflexivity|].
  change (last (a :: b :: l) d) with (last (b :: l) d).
  now rewrite !IH.
Qed.

Lemma last_en_serie {A : Type} (t : list A) : forall a, In (last t a) (a :: t).
Proof.
  induction t as [|b t IH]; intros a; [now left|].
  rewrite last_cons. right. apply IH.
Qed.

Lemma caida_ultima (s : list R) : forall m v d,
  last (caida_relativa s (expanding_max_desde m s)) d
  = match s with
    | [] => d
    | _ => fdiv (fsub (Fin (last s v)) (Fin (maximo_desde m s)))
                (Fin (maximo_desde m s))
    end.
Proof.
  induction s as [|u t IH]; intros m v d; [reflexivity|].
  cbn [expanding_max_desde caida_relativa].
  rewrite last_cons, (IH (Rmax m u) u).
  destruct t as [|w t]; [reflexivity|].
  now rewrite (last_cons u v).
Qed.

(** The last drawdown as a quotient by the largest observation. *)
Lemma ultimo_drawdown_valor (a : R) (t : list R) :
  calcular_ultimo_drawdown (a :: t)
  = Ok (fdiv (Fin (last t a - maximo_desde a t)) (Fin (maximo_desde a t))).
Proof.
  unfold calcular_ultimo_drawdown.
  cbn [expanding_max caida_relativa iloc_ultimo].
  rewrite (caida_ultima t a a).
  destruct t as [|w t]; [|reflexivity].
  cbn [last maximo_desde fold_left fsub fneg fadd]. reflexivity.
Qed.

End Drawdown.

(** X14.  [calcular_ultimo_drawdown] fails on an empty series with the
    library's index error; on a series with observations it returns the
    float quotient (last - peak) / peak, where the peak is the largest
    observation of the whole series. *)
Theorem ultimo_drawdown_pico (a : R) (t : list R) :
  calcular_ultimo_drawdown [] = Raise IndexError
  /\ exists pico,
       In pico (a :: t)
       /\ Forall (fun r => r <= pico) (a :: t)
       /\ calcular_ultimo_drawdown (a :: t)
          = Ok (fdiv (Fin (last t a - pico)) (Fin pico)).
Proof.
  split; [reflexivity|].
  exists (maximo_desde a t). split; [apply maximo_desde_in|]. split.
  - constructor; [apply maximo_desde_ge | apply maximo_desde_cota].
  - apply ultimo_drawdown_valor.
Qed.

(** X15.  When some observation is positive, the last drawdown is a finite
    number that is never positive, and it is zero exactly when the last
    observation is the largest of the series. *)
Theorem ultimo_drawdown_no_positivo (a : R) (t : list R) :
  Exists (fun r => 0 < r) (a :: t) ->
  exists d, calcular_ultimo_drawdown (a :: t) = Ok (Fin d)
            /\ d <= 0
            /\ (d = 0 <-> Forall (fun r => r <= last t a) (a :: t)).
Proof.
  intros Hex. rewrite ultimo_drawdown_valor.
  set (M := maximo_desde a t).
  assert (Hcota : Forall (fun r => r <= M) (a :: t))
    by (constructor; [apply maximo_desde_ge | apply maximo_desde_cota]).
  assert (HM : 0 < M).
  { apply Exists_exists in Hex as (r & Hr & Hpos).
    rewrite Forall_forall in Hcota. specialize (Hcota r Hr). lra. }
  assert (Hu : last t a <= M).
  { rewrite Forall_forall in Hcota. apply Hcota.
    apply last_en_serie. }
  cbn [fdiv]. destruct (Req_dec_T M 0) as [E|_]; [lra|].
  eexists; split; [reflexivity|].
  assert (Hinv : 0 < / M) by now apply Rinv_0_lt_compat.
  split.
  - unfold Rdiv. nra.
  - split.
    + intros E.
      assert (Eu : last t a = M).
      { apply (Rmult_eq_compat_r M) in E. unfold Rdiv in E.
        rewrite Rmult_assoc, Rinv_l in E; lra. }
      rewrite Eu. exact Hcota.
    + intros Hall.
      assert (HMu : M <= last t a).
      { rewrite Forall_forall in Hall. apply Hall, maximo_desde_in. }
      replace (last t a) with M by lra. unfold Rdiv. ring.
Qed.

Lemma ultimo_drawdown_no_positivo_witness :
  exists d, calcular_ultimo_drawdown [5/100; 10/100; 8/100] = Ok (Fin d)
            /\ d <= 0
            /\ (d = 0 <-> Forall (fun r => r <= last [10/100; 8/100] (5/100))
                            [5/100; 10/100; 8/100]).
Proof.
  apply (ultimo_drawdown_no_positivo (5/100) [10/100; 8/100]).
  constructor. lra.
Defined.

(** X16.  The drawdown is taken on the series as given, so a peak that is
    not positive changes its meaning: when every observation is negative the
    result is a finite number that is never negative, and when the largest
    observation is exactly zero the division by the peak gives the undefined
    value if the last observation is zero and minus infinity if it is
    negative. *)
Theorem ultimo_drawdown_pico_no_positivo (a : R) (t : list R) :
  (Forall (fun r => r < 0) (a :: t) ->
     exists d, calcular_ultimo_drawdown (a :: t) = Ok (Fin d) /\ 0 <= d)
  /\ (Forall (fun r => r <= 0) (a :: t) -> In 0 (a :: t) ->
      (last t a = 0 -> calcular_ultimo_drawdown (a :: t) = Ok NaN)
      /\ (last t a < 0 -> calcular_ultimo_drawdown (a :: t) = Ok NInf)).
Proof.
  rewrite ultimo_drawdown_valor.
  set (M := maximo_desde a t).
  assert (Hcota : Forall (fun r => r <= M) (a :: t))
    by (constructor; [apply maximo_desde_ge | apply maximo_desde_cota]).
  assert (Hin : In M (a :: t)) by apply maximo_desde_in.
  assert (Hu : last t a <= M).
  { rewrite Forall_forall in Hcota. apply Hcota, last_en_serie. }
  split.
  - intros Hneg.
    assert (HM : M < 0) by (rewrite Forall_forall in Hneg; now apply Hneg).
    cbn [fdiv]. destruct (Req_dec_T M 0) as [E|_]; [lra|].
    eexists; split; [reflexivity|].
    assert (Hinv : / M < 0) by now apply Rinv_lt_0_compat.
    unfold Rdiv. nra.
  - intros Hle H0.
    assert (HM : M = 0).
    { rewrite Forall_forall in Hle, Hcota.
      specialize (Hle M Hin). specialize (Hcota 0 H0). lra. }
    rewrite HM. cbn [fdiv]. destruct (Req_dec_T 0 0) as [_|E]; [|lra].
    unfold signo. split; intros Hlast.
    + destruct (Rlt_dec 0 (last t a - 0)); [lra|].
      destruct (Rlt_dec (last t a - 0) 0); [lra | reflexivity].
    + destruct (Rlt_dec 0 (last t a - 0)); [lra|].
      destruct (Rlt_dec (last t a - 0) 0); [reflexivity | lra].
Qed.

Lemma ultimo_drawdown_pico_no_positivo_witness :
  (exists d, calcular_ultimo_drawdown [-2/100; -1/100; -3/100] = Ok (Fin d)
             /\ 0 <= d)
  /\ (last [0] (-1/100) = 0 ->
      calcular_ultimo_drawdown [-1/100; 0] = Ok NaN)
  /\ (last [-2/100] 0 < 0 -> calcular_ultimo_drawdown [0; -2/100] = Ok NInf).
Proof.
  split; [|split].
  - apply (proj1 (ultimo_drawdown_pico_no_positivo (-2/100) [-1/100; -3/100])).
    repeat constructor; lra.
  - apply (proj2 (ultimo_drawdown_pico_no_positivo (-1/100) [0])).
    + repeat constructor; lra.
    + right; now left.
  - apply (proj2 (ultimo_drawdown_pico_no_positivo 0 [-2/100])).
    + repeat constructor; lra.
    + now left.
Defined.

(** ** Cleaning of the downloaded prices *)

Section Limpieza.

Lemma rellenar_fila_completa (fila : list fl) : forall prev,
  fila_completa fila = true -> rellenar prev fila = fila.
Proof.
  induction fila as [|c fila IH]; intros [|p prev] H; try reflexivity.
  unfold fila_completa in H. cbn [forallb] in H.
  apply andb_true_iff in H as [Hc Hf].
  cbn [rellenar]. rewrite (IH prev Hf).
  destruct c; try reflexivity. discriminate.
Qed.

Lemma length_rellenar (prev : list fl) : forall fila,
  length (rellenar prev fila) = length fila.
Proof.
  induction prev as [|p prev IH]; intros [|c fila]; try reflexivity.
  cbn [rellenar length]. now rewrite IH.
Qed.

Lemma rellenar_completa (prev : list fl) : forall fila,
  length fila = length prev -> fila_completa prev = true ->
  fila_completa (rellenar prev fila) = true.
Proof.
  unfold fila_completa.
  induction prev as [|p prev IH]; intros [|c fila] Hlen Hp; try discriminate;
    try reflexivity.
  cbn [forallb] in Hp. apply andb_true_iff in Hp as [Hp0 Hp1].
  cbn [rellenar forallb]. rewrite IH by (simpl in Hlen; lia || assumption).
  destruct c; cbn [isnan negb andb]; try reflexivity.
  rewrite andb_true_r. exact Hp0.
Qed.

Lemma ffill_desde_completas (t : Tabla) : forall prev,
  Forall (fun fila => length fila = length prev) t ->
  fila_completa prev = true ->
  Forall (fun fila => fila_completa fila = true) (ffill_desde prev t).
Proof.
  induction t as [|fila t IH]; intros prev Hw Hp; [constructor|].
  inversion Hw as [|? ? Hf Ht]; subst. cbn [ffill_desde].
  assert (Hc : fila_completa (rellenar prev fila) = true)
    by now apply rellenar_completa.
  constructor; [exact Hc|].
  apply IH; [|exact Hc].
  eapply Forall_impl; [|exact Ht]. intros f Hlen; cbv beta in *.
  rewrite length_rellenar. congruence.
Qed.

Lemma filter_todas {A : Type} (f : A -> bool) (l : list A) :
  Forall (fun a => f a = true) l -> filter f l = l.
Proof.
  induction 1 as [|a l Ha _ IH]; [reflexivity|].
  cbn [filter]. now rewrite Ha, IH.
Qed.

Lemma dropna_ffill_desde (t : Tabla) : forall prev,
  Forall (fun fila => length fila = length prev) t ->
  exists k, dropna_filas (ffill_desde prev t) = skipn k (ffill_desde prev t).
Proof.
  unfold dropna_filas.
  induction t as [|fila t IH]; intros prev Hw; [exists 0%nat; reflexivity|].
  inversion Hw as [|? ? Hf Ht]; subst. cbn [ffill_desde filter].
  assert (Ht' : Forall (fun f => length f = length (rellenar prev fila)) t).
  { eapply Forall_impl; [|exact Ht]. intros f Hlen; cbv beta in *.
    rewrite length_rellenar. congruence. }
  destruct (fila_completa (rellenar prev fila)) eqn:Hc.
  - exists 0%nat. cbn [skipn]. f_equal.
    apply filter_todas. now apply ffill_desde_completas.
  - destruct (IH (rellenar prev fila) Ht') as [k Hk].
    exists (S k). exact Hk.
Qed.

Lemma ffill_limpia (t : Tabla) :
  Forall (fun fila => fila_completa fila = true) t -> ffill t = t.
Proof.
  intros H. destruct t as [|fila t]; [reflexivity|].
  cbn [ffill]. f_equal. inversion H as [|? ? _ Ht]; subst. clear H.
  revert fila. induction Ht as [|f t Hf _ IH]; intros fila; [reflexivity|].
  cbn [ffill_desde]. rewrite (rellenar_fila_completa f fila Hf).
  f_equal. apply IH.
Qed.

End Limpieza.

(** X17.  On a downloaded table whose rows have one width,
    [obtener_datos_acciones] returns a trailing block of the forward-filled
    table: only leading rows, those before every symbol has had a quote, are
    dropped.  No cell of the result is missing. *)
Theorem obtener_datos_sufijo (data : Tabla) (ancho : nat) :
  Forall (fun fila => length fila = ancho) data ->
  (exists k, obtener_datos_acciones data = skipn k (ffill data))
  /\ Forall (fun fila => Forall (fun c => c <> NaN) fila)
       (obtener_datos_acciones data).
Proof.
  intros Hw. split.
  - unfold obtener_datos_acciones.
    destruct data as [|fila t]; [exists 0%nat; reflexivity|].
    inversion Hw as [|? ? Hf Ht]; subst. cbn [ffill].
    assert (Ht' : Forall (fun f => length f = length fila) t).
    { eapply Forall_impl; [|exact Ht]. intros f Hlen; cbv beta in *.
      congruence. }
    unfold dropna_filas. cbn [filter].
    destruct (fila_completa fila) eqn:Hc.
    + exists 0%nat. cbn [skipn]. f_equal.
      apply filter_todas. now apply ffill_desde_completas.
    + destruct (dropna_ffill_desde t fila Ht') as [k Hk].
      exists (S k). exact Hk.
  - unfold obtener_datos_acciones, dropna_filas.
    apply Forall_forall. intros fila Hin.
    apply filter_In in Hin as [_ Hc].
    unfold fila_completa in Hc. rewrite forallb_forall in Hc.
    apply Forall_forall. intros c Hcin E.
    specialize (Hc c Hcin). rewrite E in Hc. discriminate.
Qed.

Lemma obtener_datos_sufijo_witness :
  (exists k,
     obtener_datos_acciones [[Fin 10; NaN]; [NaN; Fin 20]; [Fin 11; NaN]]
     = skipn k (ffill [[Fin 10; NaN]; [NaN; Fin 20]; [Fin 11; NaN]]))
  /\ Forall (fun fila => Forall (fun c => c <> NaN) fila)
       (obtener_datos_acciones [[Fin 10; NaN]; [NaN; Fin 20]; [Fin 11; NaN]]).
Proof.
  apply (obtener_datos_sufijo
           [[Fin 10; NaN]; [NaN; Fin 20]; [Fin 11; NaN]] 2).
  repeat constructor.
Defined.

(** X18.  A table without missing cells passes through
    [obtener_datos_acciones] unchanged; hence cleaning a table twice gives
    the same as cleaning it once. *)
Theorem obtener_datos_idempotente (data : Tabla) :
  (Forall (fun fila => fila_completa fila = true) data ->
     obtener_datos_acciones data = data)
  /\ obtener_datos_acciones (obtener_datos_acciones data)
     = obtener_datos_acciones data.
Proof.
  assert (H : forall t, Forall (fun fila => fila_completa fila = true) t ->
                        obtener_datos_acciones t = t).
  { intros t Ht. unfold obtener_datos_acciones, dropna_filas.
    rewrite (ffill_limpia t Ht). now apply filter_todas. }
  split; [apply H|].
  apply H. unfold obtener_datos_acciones, dropna_filas.
  apply Forall_forall. intros fila Hin. now apply filter_In in Hin as [_ Hc].
Qed.

Lemma obtener_datos_idempotente_witness :
  obtener_datos_acciones [[Fin 10; Fin 20]; [Fin 11; Fin 21]]
  = [[Fin 10; Fin 20]; [Fin 11; Fin 21]].
Proof.
  apply (proj1 (obtener_datos_idempotente [[Fin 10; Fin 20]; [Fin 11; Fin 21]])).
  repeat constructor.
Defined.

(** ** Windows *)






Lemma producto_app (l1 l2 : list R) :
  producto (l1 ++ l2) = producto l1 * producto l2.
Proof.
  unfold producto. induction l1 as [|a l1 IH]; simpl; [lra|].
  rewrite IH. ring.
Qed.

Lemma cola_app {A : Type} (r s : list A) : cola (length s) (r ++ s) = s.
Proof.
  unfold cola. rewrite length_app.
  replace (length r + length s - length s)%nat with (length r) by lia.
  rewrite skipn_app, skipn_all, Nat.sub_diag. reflexivity.
Qed.

Lemma ventana_completa (r : Series) :
  r <> [] ->
  calcular_rendimiento_ventana r (Z.of_nat (length r))
  = Fin (rendimiento_compuesto r).
Proof.
  intros Hne. unfold calcular_rendimiento_ventana.
  rewrite Z.ltb_irrefl.
  rewrite iloc_ultimos_cola
    by (destruct r; [congruence | simpl length; lia]).
  rewrite Nat2Z.id. unfold cola. now rewrite Nat.sub_diag.
Qed.

(** X21.  Windowed returns compound over adjacent periods: for a series
    [r] followed by a series [s], one plus the return over the whole equals
    one plus the return over [r] times one plus the return over the last
    [len s] observations. *)
Theorem ventanas_componen (r s : Series) :
  r <> [] -> s <> [] ->
  exists total primero ultimo,
    calcular_rendimiento_ventana (r ++ s) (Z.of_nat (length (r ++ s)))
    = Fin total
    /\ calcular_rendimiento_ventana r (Z.of_nat (length r)) = Fin primero
    /\ calcular_rendimiento_ventana (r ++ s) (Z.of_nat (length s)) = Fin ultimo
    /\ 1 + total = (1 + primero) * (1 + ultimo).
Proof.
  intros Hr Hs.
  assert (Hrs : r ++ s <> []) by (destruct r; [congruence | discriminate]).
  do 3 eexists.
  split; [apply ventana_completa; exact Hrs|].
  split; [apply ventana_completa; exact Hr|].
  split.
  - unfold calcular_rendimiento_ventana.
    destruct (Z.ltb_spec (Z.of_nat (length (r ++ s))) (Z.of_nat (length s)))
      as [H|_]; [rewrite length_app in H; lia|].
    rewrite iloc_ultimos_cola
      by (destruct s; [congruence | simpl length; lia]).
    rewrite Nat2Z.id, cola_app. reflexivity.
  - unfold rendimiento_compuesto. rewrite map_app, producto_app. ring.
Qed.

Lemma ventanas_componen_witness :
  exists total primero ultimo,
    calcular_rendimiento_ventana ([1/100; 2/100] ++ [3/100])
      (Z.of_nat (length ([1/100; 2/100] ++ [3/100]))) = Fin total
    /\ calcular_rendimiento_ventana [1/100; 2/100]
         (Z.of_nat (length [1/100; 2/100])) = Fin primero
    /\ calcular_rendimiento_ventana ([1/100; 2/100] ++ [3/100])
         (Z.of_nat (length [3/100])) = Fin ultimo
    /\ 1 + total = (1 + primero) * (1 + ultimo).
Proof.
  apply (ventanas_componen [1/100; 2/100] [3/100]); discriminate.
Defined.

(** ** Returns against prices *)

Section Precios.

Lemma forall_skipn {A : Type} (P : A -> Prop) (l : list A) : forall k,
  Forall P l -> Forall P (skipn k l).
Proof.
  induction l as [|a l IH]; intros [|k] H; cbn [skipn]; try assumption.
  inversion H; subst. now apply IH.
Qed.

Lemma forall_firstn {A : Type} (P : A -> Prop) (l : list A) : forall k,
  Forall P l -> Forall P (firstn k l).
Proof.
  induction l as [|a l IH]; intros [|k] H; cbn [firstn]; try constructor;
    inversion H; subst; [assumption | now apply IH].
Qed.

(** The returns of a run of prices compound to last price over first. *)
Lemma producto_cambios (t : list R) : forall prev,
  Forall (fun p => p <> 0) (prev :: t) ->
  prev * producto (map (Rplus 1) (cambios_desde prev t)) = last t prev.
Proof.
  induction t as [|p t IH]; intros prev H.
  - unfold producto; simpl; lra.
  - inversion H as [|? ? Hprev Hrest]; subst.
    rewrite last_cons. rewrite <- (IH p Hrest).
    cbn [cambios_desde map]. unfold producto. cbn [fold_right].
    field. exact Hprev.
Qed.

Lemma skipn_cambios (t : list R) : forall prev k,
  (k <= length t)%nat ->
  skipn k (cambios_desde prev t)
  = cambios_desde (nth k (prev :: t) 0) (skipn k t).
Proof.
  induction t as [|p t IH]; intros prev [|k] Hk; try reflexivity.
  cbn [cambios_desde skipn]. rewrite IH by (simpl in Hk; lia). reflexivity.
Qed.

Lemma firstn_cambios (t : list R) : forall prev k,
  firstn k (cambios_desde prev t) = cambios_desde prev (firstn k t).
Proof.
  induction t as [|p t IH]; intros prev [|k]; try reflexivity.
  cbn [cambios_desde firstn]. now rewrite IH.
Qed.

Lemma last_skipn {A : Type} (t : list A) : forall k d d',
  (k < length t)%nat -> last (skipn k t) d = last t d'.
Proof.
  induction t as [|a t IH]; intros k d d' Hk; [simpl in Hk; lia|].
  destruct k as [|k].
  - cbn [skipn]. now rewrite !last_cons.
  - cbn [skipn]. rewrite (last_cons a d'). apply IH. simpl in Hk; lia.
Qed.

Lemma last_firstn (t : list R) : forall k d,
  (k < length t)%nat -> last (firstn (S k) t) d = nth k t 0.
Proof.
  induction t as [|a t IH]; intros k d Hk; [simpl in Hk; lia|].
  cbn [firstn]. rewrite last_cons.
  destruct k as [|k]; [reflexivity|].
  cbn [nth]. apply IH. simpl in Hk; lia.
Qed.

Lemma nth_no_nulo (l : list R) (k : nat) :
  Forall (fun p => p <> 0) l -> (k < length l)%nat -> nth k l 0 <> 0.
Proof.
  intros H Hk. rewrite Forall_forall in H. now apply H, nth_In.
Qed.

End Precios.

(** X22.  On the returns of a price series without zero prices, the
    windowed return over the last [w] returns is the last price over the
    price [w] dates earlier, minus 1. *)
Theorem ventana_entre_precios (p0 : R) (resto : list R) (w : Z) :
  Forall (fun p => p <> 0) (p0 :: resto) ->
  (1 <= w <= Z.of_nat (length resto))%Z ->
  calcular_rendimiento_ventana (cambios (p0 :: resto)) w
  = Fin (last resto p0
         / nth (length resto - Z.to_nat w) (p0 :: resto) 0 - 1).
Proof.
  intros Hnz [Hw1 Hw2]. cbn [cambios].
  unfold calcular_rendimiento_ventana.
  rewrite length_cambios_desde.
  destruct (Z.ltb_spec (Z.of_nat (length resto)) w); [lia|].
  rewrite iloc_ultimos_cola by assumption.
  unfold cola. rewrite length_cambios_desde.
  set (k := (length resto - Z.to_nat w)%nat).
  assert (Hk : (k < length resto)%nat) by (unfold k; lia).
  rewrite skipn_cambios by lia.
  set (q := nth k (p0 :: resto) 0).
  assert (Hq : q <> 0) by (apply nth_no_nulo; [assumption | simpl; lia]).
  assert (Hsub : Forall (fun p => p <> 0) (q :: skipn k resto)).
  { constructor; [exact Hq|]. apply forall_skipn. now inversion Hnz. }
  pose proof (producto_cambios (skipn k resto) q Hsub) as Hp.
  rewrite (last_skipn resto k q p0 Hk) in Hp.
  f_equal. rewrite <- Hp. field. exact Hq.
Qed.

Lemma ventana_entre_precios_witness :
  calcular_rendimiento_ventana (cambios [100; 110; 99; 121]) 2
  = Fin (last [110; 99; 121] 100
         / nth (length [110; 99; 121] - Z.to_nat 2) [100; 110; 99; 121] 0 - 1).
Proof.
  apply (ventana_entre_precios 100 [110; 99; 121] 2).
  - repeat constructor; lra.
  - simpl; lia.
Defined.

(** X23.  For prices without zeros, [calcular_metricas] returns normalized
    prices that start at 100, one per price, and cumulative returns equal to
    price over first price minus 1; from the second date on each normalized
    price is 100 times one plus the cumulative return of that date. *)
Theorem precios_normalizados (p0 : R) (resto : list R) :
  Forall (fun p => p <> 0) (p0 :: resto) ->
  exists returns cumulative normalized,
    calcular_metricas (p0 :: resto) = Ok (returns, cumulative, normalized)
    /\ length normalized = S (length resto)
    /\ nth 0 normalized NaN = Fin 100
    /\ forall k, (k < length resto)%nat ->
         nth k cumulative NaN = Fin (nth k resto 0 / p0 - 1)
         /\ nth (S k) normalized NaN
            = fmul (Fin 100) (fadd (Fin 1) (nth k cumulative NaN)).
Proof.
  intros Hnz.
  assert (Hp0 : p0 <> 0) by now inversion Hnz.
  assert (Hrl : Forall (fun p => p <> 0) (removelast (p0 :: resto))).
  { rewrite removelast_firstn_len. now apply forall_firstn. }
  rewrite (calcular_metricas_sin_ceros p0 resto Hrl).
  do 3 eexists. split; [reflexivity|].
  assert (Hnorm : forall p,
            fmul (fdiv (Fin p) (Fin p0)) (Fin 100) = Fin (p / p0 * 100)).
  { intros p. cbn [fdiv]. destruct (Req_dec_T p0 0); [contradiction|].
    reflexivity. }
  split; [now rewrite length_map|]. split.
  - cbn [map nth]. rewrite Hnorm. f_equal. field. exact Hp0.
  - intros k Hk.
    assert (Hc : nth k (map (fun c => fsub c (Fin 1))
                   (cumprod (map (fadd (Fin 1))
                      (map Fin (cambios (p0 :: resto)))))) NaN
                 = Fin (nth k resto 0 / p0 - 1)).
    { rewrite nth_menos_uno. unfold cumprod. cbn [cambios].
      rewrite cumprod_desde_nth by (now rewrite length_cambios_desde).
      rewrite firstn_cambios.
      assert (Hsub : Forall (fun p => p <> 0) (p0 :: firstn (S k) resto)).
      { constructor; [exact Hp0|]. apply forall_firstn. now inversion Hnz. }
      pose proof (producto_cambios (firstn (S k) resto) p0 Hsub) as Hp.
      rewrite (last_firstn resto k p0 Hk) in Hp.
      cbn [fsub fneg fadd]. f_equal. rewrite <- Hp. field. exact Hp0. }
    split; [exact Hc|].
    rewrite Hc. cbn [map nth].
    rewrite (nth_indep _ NaN (fmul (fdiv (Fin 0) (Fin p0)) (Fin 100)))
      by (now rewrite length_map).
    rewrite (map_nth (fun p => fmul (fdiv (Fin p) (Fin p0)) (Fin 100))).
    rewrite Hnorm. cbn [fadd fmul]. f_equal. field. exact Hp0.
Qed.

Lemma precios_normalizados_witness :
  exists returns cumulative normalized,
    calcular_metricas [100; 110; 99] = Ok (returns, cumulative, normalized)
    /\ length normalized = 3%nat
    /\ nth 0 normalized NaN = Fin 100
    /\ forall k, (k < 2)%nat ->
         nth k cumulative NaN = Fin (nth k [110; 99] 0 / 100 - 1)
         /\ nth (S k) normalized NaN
            = fmul (Fin 100) (fadd (Fin 1) (nth k cumulative NaN)).
Proof.
  apply (precios_normalizados 100 [110; 99]).
  repeat constructor; lra.
Defined.

(** ** VaR and the order of the observations *)

Section VarCvar.

Lemma ordenados_iguales (l1 : list R) : forall l2,
  StronglySorted Rle l1 -> StronglySorted Rle l2 -> Permutation l1 l2 ->
  l1 = l2.
Proof.
  induction l1 as [|a l1 IH]; intros l2 H1 H2 Hp.
  - now apply Permutation_nil in Hp.
  - destruct l2 as [|b l2];
      [symmetry in Hp; apply Permutation_nil in Hp; discriminate|].
    inversion H1 as [|? ? Hs1 Ha]; inversion H2 as [|? ? Hs2 Hb]; subst.
    rewrite Forall_forall in Ha, Hb.
    assert (Hab : a = b).
    { assert (Hina : In a (b :: l2))
        by (apply (Permutation_in _ Hp); now left).
      assert (Hinb : In b (a :: l1))
        by (apply (Permutation_in _ (Permutation_sym Hp)); now left).
      destruct Hina as [E|Hina]; [now symmetry|].
      destruct Hinb as [E|Hinb]; [assumption|].
      apply Rle_antisym; [apply Ha, Hinb | apply Hb, Hina]. }
    subst b. f_equal. apply IH; try assumption.
    now apply Permutation_cons_inv in Hp.
Qed.

Lemma ordenar_permutacion (r r' : Series) :
  Permutation r r' -> ordenar r = ordenar r'.
Proof.
  intros Hp. apply ordenados_iguales; try apply ordenar_sorted.
  rewrite (ordenar_perm r), Hp. symmetry. apply ordenar_perm.
Qed.

Lemma filter_permutacion {A : Type} (f : A -> bool) (l l' : list A) :
  Permutation l l' -> Permutation (filter f l) (filter f l').
Proof.
  induction 1 as [|a l l' _ IH|a b l|l l' l'' _ IH1 _ IH2]; cbn [filter].
  - constructor.
  - destruct (f a); [now constructor | assumption].
  - destruct (f a), (f b); try reflexivity. apply perm_swap.
  - now transitivity (filter f l').
Qed.

Lemma quantile_permutacion (r r' : Series) (q : R) :
  Permutation r r' -> quantile r q = quantile r' q.
Proof.
  intros Hp. unfold quantile.
  destruct (Rle_dec 0 q); [|reflexivity].
  destruct (Rle_dec q 1); [|reflexivity].
  destruct r as [|a r].
  - now rewrite (Permutation_nil Hp).
  - destruct r' as [|b r'];
      [symmetry in Hp; apply Permutation_nil in Hp; discriminate|].
    now rewrite (ordenar_permutacion _ _ Hp), (Permutation_length Hp).
Qed.

End VarCvar.

(** X25.  The VaR of [calcular_var_cvar] does not depend on the order of
    the observations: for two series that are rearrangements of one another
    the function fails on both or on neither, returns the same VaR, and
    takes the CVaR as the mean of the same observations, those at or below
    that VaR, possibly in another order. *)
Theorem var_cvar_permutacion (r r' : Series) (confidence : R) :
  Permutation r r' ->
  (forall e, calcular_var_cvar r confidence = Raise e
             <-> calcular_var_cvar r' confidence = Raise e)
  /\ forall VaR CVaR,
       calcular_var_cvar r confidence = Ok (VaR, CVaR) ->
       CVaR = mean (filter (fun x => fle (Fin x) VaR) r)
       /\ calcular_var_cvar r' confidence
          = Ok (VaR, mean (filter (fun x => fle (Fin x) VaR) r'))
       /\ Permutation (filter (fun x => fle (Fin x) VaR) r)
                      (filter (fun x => fle (Fin x) VaR) r').
Proof.
  intros Hp. unfold calcular_var_cvar.
  rewrite (quantile_permutacion r r' (1 - confidence) Hp).
  destruct (quantile r' (1 - confidence)) as [V|e0]; cbn [bind].
  - split; [intros e; split; discriminate|].
    intros VaR CVaR H. injection H as <- <-.
    split; [reflexivity|]. split; [reflexivity|].
    apply filter_permutacion, Hp.
  - split; [intros e; tauto|]. intros VaR CVaR H. discriminate.
Qed.

Lemma var_cvar_permutacion_witness :
  (forall e, calcular_var_cvar [2/100; -3/100; 1/100] (95/100) = Raise e
             <-> calcular_var_cvar [-3/100; 2/100; 1/100] (95/100) = Raise e)
  /\ forall VaR CVaR,
       calcular_var_cvar [2/100; -3/100; 1/100] (95/100) = Ok (VaR, CVaR) ->
       CVaR = mean (filter (fun x => fle (Fin x) VaR) [2/100; -3/100; 1/100])
       /\ calcular_var_cvar [-3/100; 2/100; 1/100] (95/100)
          = Ok (VaR, mean (filter (fun x => fle (Fin x) VaR)
                             [-3/100; 2/100; 1/100]))
       /\ Permutation
            (filter (fun x => fle (Fin x) VaR) [2/100; -3/100; 1/100])
            (filter (fun x => fle (Fin x) VaR) [-3/100; 2/100; 1/100]).
Proof.
  apply (var_cvar_permutacion [2/100; -3/100; 1/100] [-3/100; 2/100; 1/100]).
  apply perm_swap.
Defined.

(** ** The objectives handed to the solver *)


